(** * Naive Bayes notebook: the feature-extraction pipeline

    A shallow embedding of [Naive Bayes/naivebayes.ipynb]: [parse_tfrecord],
    the module constants and [mel_mat], [extract_features], [dataset_sizes]
    and [process_dataset], together with the TensorFlow operations these
    cells call ([tf.io.parse_single_example], [tf.signal.stft],
    [tf.signal.linear_to_mel_weight_matrix], [tf.tensordot], ...), written
    out on lists following their documented behaviour.

    Python dictionaries are finite maps, a tensor is its static shape and
    its flat list of values, exceptions are the left summand of [result],
    and the float32 arithmetic is an interface ([Float32]) that the
    theorems are generic in. *)

From Stdlib Require Import ZArith QArith Reals Qreals Lra Lia.
From stdpp Require Import gmap strings list pretty.

Close Scope Q_scope.
Close Scope R_scope.
Open Scope Z_scope.

(** ** Exceptions *)

Inductive tf_error :=
  | FeatureRequired (key : string)      (* FixedLenFeature absent, no default *)
  | DTypeMismatch (key : string)        (* feature holds another kind of list *)
  | ShapeMismatch (key : string)        (* number of values != product of shape *)
  | KeyError (key : string)             (* example[key] on an absent key *)
  | InvalidArgument                     (* bytes that are no Example proto; an
                                           operation applied to the wrong tensor *)
  | NotFoundError.                      (* TFRecordDataset on an absent file *)

Inductive result (A : Type) :=
  | Raise (e : tf_error)
  | Ok (a : A).
Arguments Raise {A} e.
Arguments Ok {A} a.

#[global] Instance result_ret : MRet result := @Ok.
#[global] Instance result_bind : MBind result := λ A B f m,
  match m with
  | Raise e => Raise e
  | Ok a => f a
  end.
#[global] Instance result_fmap : FMap result := λ A B f m,
  match m with
  | Raise e => Raise e
  | Ok a => Ok (f a)
  end.

Definition is_ok {A} (m : result A) : bool :=
  match m with
  | Ok _ => true
  | Raise _ => false
  end.

(** [mapM] for [result]: left to right, the first exception wins. *)
Fixpoint traverse {A B} (f : A → result B) (l : list A) : result (list B) :=
  match l with
  | [] => Ok []
  | a :: l' => b ← f a; bs ← traverse f l'; Ok (b :: bs)
  end.

(** A [tf.data.Dataset]: the elements in the order the iterator yields
    them, each one a value or the exception raised when it is reached. *)
Abbreviation Dataset A := (list (result A)) (only parsing).

(** ** The float32 interface

    The notebook computes in [tf.float32] through TensorFlow kernels.  The
    operations it reaches are collected here; nothing is assumed about
    them, so what is proved of the pipeline holds for any arithmetic. *)

Class Float32 := {
  F : Type;
  flit : Q → F;                 (* a Python float literal *)
  of_int64 : Z → F;             (* tf.cast(int64 -> float32) *)
  fpi : F;                      (* np.pi *)
  fadd : F → F → F;
  fsub : F → F → F;
  fmul : F → F → F;
  fdiv : F → F → F;
  fmax : F → F → F;
  fmin : F → F → F;
  fsqrt : F → F;
  fcos : F → F;
  fsin : F → F;
  flog : F → F;
}.

(** Exact real arithmetic is one instance: no rounding, no overflow, no
    infinities or NaN.  What is proved at this instance alone is marked as
    holding in exact arithmetic. *)
Definition exact_arith : Float32 := {|
  F := R;
  flit := Q2R;
  of_int64 := IZR;
  fpi := PI;
  fadd := Rplus;
  fsub := Rminus;
  fmul := Rmult;
  fdiv := Rdiv;
  fmax := Rmax;
  fmin := Rmin;
  fsqrt := sqrt;
  fcos := cos;
  fsin := sin;
  flog := ln;
|}.

Section Notebook.
Context `{Float32}.

(** ** Serialized examples and tensors *)

(** [tf.train.Feature]: one of three lists. *)
Inductive Feature :=
  | BytesList (value : list string)
  | FloatList (value : list F)
  | Int64List (value : list Z).

Inductive DType := tf_int64 | tf_float32 | tf_string.

Definition feature_dtype (f : Feature) : DType :=
  match f with
  | BytesList _ => tf_string
  | FloatList _ => tf_float32
  | Int64List _ => tf_int64
  end.

Definition feature_len (f : Feature) : Z :=
  match f with
  | BytesList l => Z.of_nat (length l)
  | FloatList l => Z.of_nat (length l)
  | Int64List l => Z.of_nat (length l)
  end.

Definition empty_feature (d : DType) : Feature :=
  match d with
  | tf_int64 => Int64List []
  | tf_float32 => FloatList []
  | tf_string => BytesList []
  end.

#[global] Instance DType_eq_dec : EqDecision DType.
Proof. solve_decision. Defined.

(** The scalar string handed to [parse_tfrecord]: the bytes of a
    [tf.train.Example], that is a map from feature names to features, or
    bytes that do not decode. *)
Inductive Serialized :=
  | Garbage
  | ExampleProto (features : gmap string Feature).

(** A tensor as the parser returns it: dense with its static shape, or the
    values of a [SparseTensor]. *)
Inductive Tensor :=
  | Dense (shape : list Z) (data : Feature)
  | Sparse (data : Feature).

Inductive FeatureSpec :=
  | FixedLenFeature (shape : list Z) (dtype : DType)
  | VarLenFeature (dtype : DType).

Definition num_elements (shape : list Z) : Z := fold_right Z.mul 1 shape.

(** One entry of [tf.io.parse_single_example].  All three faults are an
    [InvalidArgumentError] in TensorFlow; the constructors keep its three
    messages apart. *)
Definition parse_feature (features : gmap string Feature)
    (key : string) (spec : FeatureSpec) : result Tensor :=
  match spec with
  | FixedLenFeature shape dtype =>
      match features !! key with
      | None => Raise (FeatureRequired key)
      | Some f =>
          if negb (bool_decide (feature_dtype f = dtype)) then Raise (DTypeMismatch key)
          else if negb (feature_len f =? num_elements shape) then Raise (ShapeMismatch key)
          else Ok (Dense shape f)
      end
  | VarLenFeature dtype =>
      match features !! key with
      | None => Ok (Sparse (empty_feature dtype))
      | Some f =>
          if negb (bool_decide (feature_dtype f = dtype)) then Raise (DTypeMismatch key)
          else Ok (Sparse f)
      end
  end.

(** When several features are at fault the embedding reports the first in
    the order of [features]; which one TensorFlow names is not modelled. *)
Definition parse_single_example (serialized : Serialized)
    (features : list (string * FeatureSpec)) : result (gmap string Tensor) :=
  match serialized with
  | Garbage => Raise InvalidArgument
  | ExampleProto fs =>
      kvs ← traverse (λ '(key, spec), t ← parse_feature fs key spec; Ok (key, t)) features;
      Ok (list_to_map kvs)
  end.

Definition feature_description : list (string * FeatureSpec) :=
  [ ("note", FixedLenFeature [] tf_int64);
    ("note_str", FixedLenFeature [] tf_string);
    ("instrument", FixedLenFeature [] tf_int64);
    ("instrument_str", FixedLenFeature [] tf_string);
    ("pitch", FixedLenFeature [] tf_int64);
    ("velocity", FixedLenFeature [] tf_int64);
    ("sample_rate", FixedLenFeature [] tf_int64);
    ("audio", FixedLenFeature [64000] tf_float32);
    ("qualities", FixedLenFeature [10] tf_int64);
    ("qualities_str", VarLenFeature tf_string);
    ("instrument_family", FixedLenFeature [] tf_int64);
    ("instrument_family_str", FixedLenFeature [] tf_string);
    ("instrument_source", FixedLenFeature [] tf_int64);
    ("instrument_source_str", FixedLenFeature [] tf_string) ].

Definition parse_tfrecord (file : Serialized) : result (gmap string Tensor) :=
  parse_single_example file feature_description.

(** ** Signal-processing operations *)

Definition fzero : F := flit 0.

(** [tf.reduce_sum] of a vector, accumulated from the left. *)
Definition fsum (l : list F) : F := fold_left fadd l fzero.

(** [tf.linspace start stop num]. *)
Definition linspace (start stop : F) (num : Z) : list F :=
  (λ i, fadd start (fmul (of_int64 i) (fdiv (fsub stop start) (of_int64 (num - 1)))))
    <$> seqZ 0 num.

(** [tf.signal.frame signal frame_length frame_step] with [pad_end=False]:
    only whole frames are kept. *)
Definition num_frames (n frame_length frame_step : Z) : Z :=
  if n <? frame_length then 0 else 1 + (n - frame_length) / frame_step.

Definition frame (signal : list F) (frame_length frame_step : Z) : list (list F) :=
  (λ t, take (Z.to_nat frame_length) (drop (Z.to_nat (t * frame_step)) signal))
    <$> seqZ 0 (num_frames (Z.of_nat (length signal)) frame_length frame_step).

(** [tf.signal.hann_window window_length] (periodic), the default
    [window_fn] of [tf.signal.stft]. *)
Definition hann_window (window_length : Z) : list F :=
  if window_length =? 1 then [flit 1]
  else
    let even := 1 - window_length `mod` 2 in
    let n := of_int64 (window_length + 1 * even - 1) in
    (λ count,
       let cos_arg := fdiv (fmul (fmul (flit 2) fpi) (of_int64 count)) n in
       fsub (flit 0.5) (fmul (flit 0.5) (fcos cos_arg)))
      <$> seqZ 0 window_length.

(** A [tf.complex64] value. *)
Definition complex : Type := F * F.

(** Bin [k] of the length-[n] discrete Fourier transform of [x]. *)
Definition dft_term (n k : Z) (acc : complex) (ix : Z * F) : complex :=
  let theta := fdiv (fmul (fmul (flit 2) fpi) (of_int64 (k * ix.1))) (of_int64 n) in
  (fadd acc.1 (fmul ix.2 (fcos theta)), fsub acc.2 (fmul ix.2 (fsin theta))).

Definition dft_bin (n : Z) (x : list F) (k : Z) : complex :=
  fold_left (dft_term n k) (zip (seqZ 0 n) x) (fzero, fzero).

(** [tf.signal.rfft x [fft_length]]: the input is cropped or zero-padded
    to [fft_length]; bins [0 .. fft_length / 2] are returned. *)
Definition rfft (x : list F) (fft_length : Z) : list complex :=
  dft_bin fft_length (resize (Z.to_nat fft_length) fzero x)
    <$> seqZ 0 (fft_length / 2 + 1).

(** [tf.signal.stft signals frame_length frame_step fft_length]. *)
Definition stft (signals : list F) (frame_length frame_step fft_length : Z)
    : list (list complex) :=
  (λ framed, rfft (zip_with fmul framed (hann_window frame_length)) fft_length)
    <$> frame signals frame_length frame_step.

(** [tf.abs] on complex values. *)
Definition cabs (c : complex) : F :=
  fsqrt (fadd (fmul c.1 c.1) (fmul c.2 c.2)).

Definition tf_abs (m : list (list complex)) : list (list F) :=
  (λ row : list complex, cabs <$> row) <$> m.

(** [tf.tensordot a b axes=1] on two matrices.  TensorFlow raises when the
    rows of [a] are not as long as [b] has rows; on lists the product is cut
    to the shorter of the two.  In [extract_features] both are 513. *)
Definition ncols (b : list (list F)) : nat :=
  match b with
  | [] => 0%nat
  | row :: _ => length row
  end.

Definition column (j : nat) (b : list (list F)) : list F :=
  (λ row, nth j row fzero) <$> b.

Definition dot (u v : list F) : F := fsum (zip_with fmul u v).

Definition tensordot (a b : list (list F)) : list (list F) :=
  (λ row, (λ j, dot row (column j b)) <$> seq 0 (ncols b)) <$> a.

(** [m + c] with a Python float broadcast over a matrix, and [tf.math.log]. *)
Definition add_scalar (m : list (list F)) (c : F) : list (list F) :=
  (λ row : list F, (λ x, fadd x c) <$> row) <$> m.

Definition tf_math_log (m : list (list F)) : list (list F) :=
  (λ row : list F, flog <$> row) <$> m.

(** [tf.reduce_mean m axis=0]: the mean of every column.  A matrix without
    rows has no columns left on lists and gives the empty vector, where
    TensorFlow keeps the static column count; [extract_features] reaches it
    with 247 rows. *)
Definition reduce_mean (m : list (list F)) : list F :=
  (λ j, fdiv (fsum (column j m)) (of_int64 (Z.of_nat (length m)))) <$> seq 0 (ncols m).

(** [tf.signal.linear_to_mel_weight_matrix]. *)
Definition hertz_to_mel (frequencies_hertz : F) : F :=
  fmul (flit 1127) (flog (fadd (flit 1) (fdiv frequencies_hertz (flit 700)))).

Definition mel_weight (bin_mel : F) (edges : F * (F * F)) : F :=
  let '(lower_edge_mel, (center_mel, upper_edge_mel)) := edges in
  let lower_slope := fdiv (fsub bin_mel lower_edge_mel) (fsub center_mel lower_edge_mel) in
  let upper_slope := fdiv (fsub upper_edge_mel bin_mel) (fsub upper_edge_mel center_mel) in
  fmax fzero (fmin lower_slope upper_slope).

Definition linear_to_mel_weight_matrix (num_mel_bins num_spectrogram_bins : Z)
    (sample_rate : Z) (lower_edge_hertz upper_edge_hertz : F) : list (list F) :=
  let bands_to_zero := 1%nat in
  let nyquist_hertz := fdiv (of_int64 sample_rate) (flit 2) in
  let linear_frequencies :=
    drop bands_to_zero (linspace fzero nyquist_hertz num_spectrogram_bins) in
  let spectrogram_bins_mel := hertz_to_mel <$> linear_frequencies in
  let band_edges_mel :=
    linspace (hertz_to_mel lower_edge_hertz) (hertz_to_mel upper_edge_hertz)
             (num_mel_bins + 2) in
  let triples :=
    zip band_edges_mel (zip (drop 1 band_edges_mel) (drop 2 band_edges_mel)) in
  replicate bands_to_zero (replicate (Z.to_nat num_mel_bins) fzero)
    ++ ((λ bin_mel, mel_weight bin_mel <$> triples) <$> spectrogram_bins_mel).

(** ** The notebook's constants *)

Definition SR : Z := 16000.
Definition FFT_SIZE : Z := 1024.
Definition HOP : Z := 256.
Definition N_MELS : Z := 128.

Definition mel_mat : list (list F) :=
  linear_to_mel_weight_matrix N_MELS (FFT_SIZE / 2 + 1) SR
    (flit 30) (fdiv (of_int64 SR) (flit 2)).

(** ** [extract_features] *)

(** [example[key]]. *)
Definition getitem (example : gmap string Tensor) (key : string) : result Tensor :=
  match example !! key with
  | Some t => Ok t
  | None => Raise (KeyError key)
  end.

(** [tf.cast(t, tf.float32)] of a vector.  Tensors of another rank, and
    strings, do not come out of [parse_tfrecord] under these keys; the
    embedding raises on them. *)
Definition cast_vector_float32 (t : Tensor) : result (list F) :=
  match t with
  | Dense [_] (FloatList l) => Ok l
  | Dense [_] (Int64List l) => Ok (of_int64 <$> l)
  | _ => Raise InvalidArgument
  end.

(** An element of the Python list that [tf.cast] packs: a scalar int64. *)
Definition int64_scalar (t : Tensor) : result Z :=
  match t with
  | Dense [] (Int64List [z]) => Ok z
  | _ => Raise InvalidArgument
  end.

Definition extract_features (example : gmap string Tensor)
    : result (list F * Tensor) :=
  audio ← getitem example "audio" ≫= cast_vector_float32;
  let stft := stft audio FFT_SIZE HOP FFT_SIZE in
  let spectogram := tf_abs stft in
  let mel_spec := tensordot spectogram mel_mat in
  let log_mel_spec := tf_math_log (add_scalar mel_spec (flit 1e-6)) in
  let mel := reduce_mean log_mel_spec in
  note ← getitem example "note" ≫= int64_scalar;
  pitch ← getitem example "pitch" ≫= int64_scalar;
  velocity ← getitem example "velocity" ≫= int64_scalar;
  sample_rate ← getitem example "sample_rate" ≫= int64_scalar;
  instrument_source ← getitem example "instrument_source" ≫= int64_scalar;
  let feature_vector :=
    (of_int64 <$> [note; pitch; velocity; sample_rate; instrument_source]) ++ mel in
  label ← getitem example "instrument_family";
  Ok (feature_vector, label).

(** ** [process_dataset] *)

Definition dataset_sizes : list (string * Z) :=
  [ ("train", 289205);
    ("valid", 12678);
    ("test", 4096) ].

(** [needle in haystack] on Python strings. *)
Fixpoint str_in (needle haystack : string) : bool :=
  String.prefix needle haystack ||
  match haystack with
  | EmptyString => false
  | String _ rest => str_in needle rest
  end.

(** The files by path: their records in order, or nothing at that path. *)
Definition Files : Type := string → option (list Serialized).

Definition TFRecordDataset (files : Files) (path : string) : Dataset Serialized :=
  match files path with
  | None => [Raise NotFoundError]
  | Some records => Ok <$> records
  end.

(** [dataset.map f]: elements keep their order ([num_parallel_calls] does
    not change what the iterator yields, only when it is computed). *)
Definition dataset_map {A B} (f : A → result B) (dataset : Dataset A) : Dataset B :=
  (λ x : result A, x ≫= f) <$> dataset.

(** The [for features, label in tqdm(dataset, ...)] loop with its two
    accumulators. *)
Fixpoint for_loop (dataset : Dataset (list F * Tensor))
    (X : list (list F)) (y : list Tensor) : result (list (list F) * list Tensor) :=
  match dataset with
  | [] => Ok (X, y)
  | Raise e :: _ => Raise e
  | Ok (features, label) :: rest => for_loop rest (X ++ [features]) (y ++ [label])
  end.

(** The [count] loop over [dataset_sizes.items()]. *)
Definition count_examples (sizes : list (string * Z)) (path : string) : Z :=
  fold_left (λ count '(split, size), if str_in split path then size else count) sizes 0.

(** What a call does: the lines printed, the [total] given to [tqdm], and
    the value returned or the exception that ends the call. *)
Record Run := {
  stdout : list string;
  tqdm_total : Z;
  returned : result (list (list F) * list Tensor);
}.

Definition process_dataset (files : Files) (path : string) : Run :=
  let dataset := TFRecordDataset files path in
  let count := count_examples dataset_sizes path in
  let out := ["Found " +:+ pretty count +:+ " examples in dataset"] in
  let dataset := dataset_map parse_tfrecord dataset in
  let dataset := dataset_map (λ example, extract_features example) dataset in
  {| stdout := out; tqdm_total := count; returned := for_loop dataset [] [] |}.

End Notebook.

Arguments Feature {_}.
Arguments Tensor {_}.
Arguments Serialized {_}.
Arguments Run {_}.

(** * Vocabulary of the statements *)

Section Vocabulary.
Context `{Float32}.

(** The record holds [key] as a feature of the declared type and, when
    the declaration fixes a shape, with as many values as the shape has. *)
Definition declared (fs : gmap string Feature) (key : string) (spec : FeatureSpec) : Prop :=
  ∃ f, fs !! key = Some f ∧
    match spec with
    | FixedLenFeature shape dtype =>
        feature_dtype f = dtype ∧ feature_len f = num_elements shape
    | VarLenFeature dtype => feature_dtype f = dtype
    end.

(** "The record contains every one of the fourteen declared features with
    the declared type and fixed shape". *)
Definition holds_all_declared (r : Serialized) : Prop :=
  ∃ fs, r = ExampleProto fs ∧
    Forall (λ '(key, spec), declared fs key spec) feature_description.

(** What the parser asks of one declared feature: a [VarLenFeature] may
    also be absent. *)
Definition accepted_feature (fs : gmap string Feature) (key : string)
    (spec : FeatureSpec) : Prop :=
  match spec with
  | FixedLenFeature _ _ => declared fs key spec
  | VarLenFeature _ => fs !! key = None ∨ declared fs key spec
  end.

Definition accepted (r : Serialized) : Prop :=
  ∃ fs, r = ExampleProto fs ∧
    Forall (λ '(key, spec), accepted_feature fs key spec) feature_description.

(** The record's values under [key], as a tensor of the declared form. *)
Definition parsed_value (fs : gmap string Feature) (key : string)
    (spec : FeatureSpec) : option Tensor :=
  match spec with
  | FixedLenFeature shape _ => Dense shape <$> fs !! key
  | VarLenFeature dtype => Some (Sparse (default (empty_feature dtype) (fs !! key)))
  end.

(** The mel part of the feature vector, as [extract_features] computes it
    from the audio samples. *)
Definition mel_of_audio (audio : list F) : list F :=
  reduce_mean
    (tf_math_log
       (add_scalar (tensordot (tf_abs (stft audio FFT_SIZE HOP FFT_SIZE)) mel_mat)
                   (flit 1e-6))).

(** The sum of [f 0 .. f (n-1)], and the entry of a matrix at a row and a
    column. *)
Definition fsum_upto (n : nat) (f : nat → F) : F :=
  fold_left (λ acc i, fadd acc (f i)) (seq 0 n) fzero.

Definition entry {A} (d : A) (m : list (list A)) (i j : nat) : A :=
  default d (m !! i ≫= (.!! j)).

(** "mean_over_frames(log(|STFT(audio)| . M + 1e-6))", entry by entry: for
    each of the 128 mel bins [j], the mean over the 247 frames [t] of the
    logarithm of [sum over the 513 bins k of |S t k| * M k j, plus 1e-6],
    [S] being the short-time Fourier transform with frame length 1024 and
    hop 256 and [M] the mel weight matrix. *)
Definition mel_formula (audio : list F) : list F :=
  let S := stft audio 1024 256 1024 in
  (λ j,
     fdiv (fsum_upto 247 (λ t,
             flog (fadd (fsum_upto 513 (λ k,
                           fmul (cabs (entry (fzero, fzero) S t k))
                                (entry fzero mel_mat k j)))
                        (flit 1e-6))))
          (of_int64 247))
    <$> seq 0 128.

(** The five metadata fields in the order [extract_features] packs them. *)
Definition metadata_keys : list string :=
  ["note"; "pitch"; "velocity"; "sample_rate"; "instrument_source"].

(** The feature a serialized record holds under [key]. *)
Definition record_feature (r : Serialized) (key : string) : option Feature :=
  match r with
  | Garbage => None
  | ExampleProto fs => fs !! key
  end.

(** The keys [extract_features] reads from its argument. *)
Definition keys_read : list string :=
  ["audio"; "note"; "pitch"; "velocity"; "sample_rate"; "instrument_source";
   "instrument_family"].

(** "The last key among train, valid, test, in that insertion order, that
    occurs as a substring of the path", and the size [dataset_sizes] gives
    it; 0 when no key occurs. *)
Definition last_matching_split (path : string) : option string :=
  last (filter (λ split, str_in split path = true) ["train"; "valid"; "test"]).

Definition expected_count (path : string) : Z :=
  match last_matching_split path with
  | Some split => default 0 ((list_to_map dataset_sizes : gmap string Z) !! split)
  | None => 0
  end.

(** The sequential reading of [process_dataset]: decode, then featurize,
    one record after the other. *)
Definition sequential (records : list Serialized) : result (list (list F * Tensor)) :=
  traverse (λ r, example ← parse_tfrecord r; extract_features example) records.

Definition spec_dtype (spec : FeatureSpec) : DType :=
  match spec with
  | FixedLenFeature _ dtype => dtype
  | VarLenFeature dtype => dtype
  end.

(** Malformed records: bytes that do not decode, a required feature
    missing, a declared feature of another type, an audio feature without
    exactly 64000 values. *)
Inductive malformed : Serialized → Prop :=
  | undecodable : malformed Garbage
  | missing_required fs key shape dtype :
      (key, FixedLenFeature shape dtype) ∈ feature_description →
      fs !! key = None →
      malformed (ExampleProto fs)
  | wrongly_typed fs key spec f :
      (key, spec) ∈ feature_description →
      fs !! key = Some f →
      feature_dtype f ≠ spec_dtype spec →
      malformed (ExampleProto fs)
  | audio_shape fs l :
      fs !! "audio" = Some (FloatList l) →
      Z.of_nat (length l) ≠ 64000 →
      malformed (ExampleProto fs).

End Vocabulary.

(** * Sample inputs

    Records in the layout of the NSynth dataset, over exact arithmetic. *)

Section Samples.
#[local] Existing Instance exact_arith.

Definition sample_features : gmap string (@Feature exact_arith) :=
  list_to_map
    [ ("note", Int64List [201034]);
      ("note_str", BytesList ["bass_synthetic_033-022-050"]);
      ("instrument", Int64List [417]);
      ("instrument_str", BytesList ["bass_synthetic_033"]);
      ("pitch", Int64List [22]);
      ("velocity", Int64List [50]);
      ("sample_rate", Int64List [16000]);
      ("audio", FloatList (replicate (Z.to_nat 64000) 0%R));
      ("qualities", Int64List [0; 1; 0; 0; 0; 0; 0; 0; 0; 0]);
      ("qualities_str", BytesList ["dark"]);
      ("instrument_family", Int64List [0]);
      ("instrument_family_str", BytesList ["bass"]);
      ("instrument_source", Int64List [2]);
      ("instrument_source_str", BytesList ["synthetic"]) ].

Definition sample_record : @Serialized exact_arith := ExampleProto sample_features.

(** The same record without its [qualities_str] feature. *)
Definition record_without_qualities_str : @Serialized exact_arith :=
  ExampleProto (delete "qualities_str" sample_features).

(** What [parse_tfrecord] makes of [sample_record]. *)
Definition sample_example : gmap string (@Tensor exact_arith) :=
  list_to_map
    [ ("note", Dense [] (Int64List [201034]));
      ("note_str", Dense [] (BytesList ["bass_synthetic_033-022-050"]));
      ("instrument", Dense [] (Int64List [417]));
      ("instrument_str", Dense [] (BytesList ["bass_synthetic_033"]));
      ("pitch", Dense [] (Int64List [22]));
      ("velocity", Dense [] (Int64List [50]));
      ("sample_rate", Dense [] (Int64List [16000]));
      ("audio", Dense [64000] (FloatList (replicate (Z.to_nat 64000) 0%R)));
      ("qualities", Dense [10] (Int64List [0; 1; 0; 0; 0; 0; 0; 0; 0; 0]));
      ("qualities_str", Sparse (BytesList ["dark"]));
      ("instrument_family", Dense [] (Int64List [0]));
      ("instrument_family_str", Dense [] (BytesList ["bass"]));
      ("instrument_source", Dense [] (Int64List [2]));
      ("instrument_source_str", Dense [] (BytesList ["synthetic"])) ].

(** The sample relabelled as a keyboard note. *)
Definition keyboard_record : @Serialized exact_arith :=
  ExampleProto (<["instrument_family" := Int64List [4]]>
                  (<["instrument_family_str" := BytesList ["keyboard"]]> sample_features)).

(** The sample with three audio samples instead of 64000. *)
Definition truncated_record : @Serialized exact_arith :=
  ExampleProto (<["audio" := FloatList [0%R; 0%R; 0%R]]> sample_features).

(** Directories in which every path holds the same records. *)
Definition sample_files : @Files exact_arith :=
  λ _, Some [sample_record; keyboard_record].

Definition broken_files : @Files exact_arith :=
  λ _, Some [sample_record; truncated_record; keyboard_record].

End Samples.

(** * Properties *)

Section Properties.
Context `{Float32}.

(** ** The exception monad *)

Lemma bind_Ok {A B} (m : result A) (f : A → result B) b :
  m ≫= f = Ok b → ∃ a, m = Ok a ∧ f a = Ok b.
Proof. destruct m as [e|a]; [discriminate | eauto]. Qed.

Lemma bind_Raise {A B} (m : result A) (f : A → result B) e :
  m ≫= f = Raise e → m = Raise e ∨ ∃ a, m = Ok a ∧ f a = Raise e.
Proof.
  intros Hm. destruct m as [e'|a]; [left | right; eauto].
  simpl in Hm. injection Hm as ->. reflexivity.
Qed.

Lemma is_ok_true {A} (m : result A) : is_ok m = true ↔ ∃ a, m = Ok a.
Proof.
  destruct m as [e|a]; simpl; split; eauto; try discriminate.
  intros [a Ha]. discriminate.
Qed.

Lemma is_ok_Ok {A} (m : result A) : is_ok m = true → { a | m = Ok a }.
Proof. destruct m as [e|a]; [discriminate | eauto]. Defined.

Lemma traverse_Ok {A B} (f : A → result B) l bs :
  traverse f l = Ok bs → Forall2 (λ a b, f a = Ok b) l bs.
Proof.
  revert bs. induction l as [|a l IH]; intros bs Hbs; simpl in Hbs.
  - injection Hbs as <-. constructor.
  - apply bind_Ok in Hbs as (b & Hb & Hbs).
    apply bind_Ok in Hbs as (bs' & Hbs' & Heq).
    injection Heq as <-. constructor; auto.
Qed.

Lemma traverse_Forall2 {A B} (f : A → result B) l bs :
  Forall2 (λ a b, f a = Ok b) l bs → traverse f l = Ok bs.
Proof.
  induction 1 as [|a b l bs Hab _ IH]; simpl; [reflexivity|].
  rewrite Hab. simpl. rewrite IH. reflexivity.
Qed.

Lemma traverse_Raise {A B} (f : A → result B) l e :
  traverse f l = Raise e →
  ∃ pre a post, l = pre ++ a :: post ∧ Forall (λ x, is_ok (f x) = true) pre ∧ f a = Raise e.
Proof.
  induction l as [|a l IH]; simpl; [discriminate|].
  intros Hr. apply bind_Raise in Hr as [Ha | (b & Hb & Hr)].
  - exists [], a, l. repeat split; auto.
  - apply bind_Raise in Hr as [Hl | (bs & _ & Hr)]; [|discriminate].
    destruct (IH Hl) as (pre & a' & post & -> & Hpre & Ha').
    exists (a :: pre), a', post. repeat split; auto.
    constructor; [rewrite Hb; reflexivity | exact Hpre].
Qed.

(** ** [parse_tfrecord] *)

Lemma feature_description_NoDup : NoDup (feature_description.*1).
Proof.
  cbn. repeat (apply NoDup_cons; split;
    [rewrite ?elem_of_cons, elem_of_nil; intros Hin; decompose [or] Hin;
     discriminate || contradiction|]).
  apply NoDup_nil_2.
Qed.

Lemma parse_feature_accepted fs key spec :
  is_ok (parse_feature fs key spec) = true ↔ accepted_feature fs key spec.
Proof.
  unfold parse_feature, accepted_feature, declared.
  destruct spec as [shape dtype|dtype]; destruct (fs !! key) as [f|] eqn:Hf.
  - case_bool_decide as Hd; simpl.
    + destruct (Z.eqb_spec (feature_len f) (num_elements shape)); simpl.
      * split; eauto.
      * split; [discriminate|]. intros (f' & [= <-] & _ & ?). contradiction.
    + split; [discriminate|]. intros (f' & [= <-] & ? & _). contradiction.
  - simpl. split; [discriminate|]. intros (f & ? & _). discriminate.
  - case_bool_decide as Hd; simpl.
    + split; eauto.
    + split; [discriminate|]. intros [?|(f' & [= <-] & ?)]; [discriminate|contradiction].
  - simpl. split; auto.
Qed.

Lemma parse_feature_value fs key spec t :
  parse_feature fs key spec = Ok t → parsed_value fs key spec = Some t.
Proof.
  unfold parse_feature, parsed_value.
  destruct spec as [shape dtype|dtype]; destruct (fs !! key) as [f|]; simpl;
    try discriminate.
  - destruct (negb _); [discriminate|]. destruct (negb _); [discriminate|].
    congruence.
  - destruct (negb _); [discriminate|]. congruence.
  - congruence.
Qed.

Lemma parse_single_example_Ok fs desc example :
  NoDup (desc.*1) →
  parse_single_example (ExampleProto fs) desc = Ok example →
  ∀ key spec, (key, spec) ∈ desc →
    ∃ t, parse_feature fs key spec = Ok t ∧ example !! key = Some t.
Proof.
  intros Hnd Hp key spec Hin. unfold parse_single_example in Hp.
  apply bind_Ok in Hp as (kvs & Hkvs & [= <-]).
  apply traverse_Ok in Hkvs.
  assert (kvs.*1 = desc.*1) as Hkeys.
  { clear -Hkvs. induction Hkvs as [|[k s] [k' t] ? ? Hkt _ IH]; [reflexivity|].
    apply bind_Ok in Hkt as (t' & _ & [= <- <-]). simpl. by f_equal. }
  apply list_elem_of_lookup in Hin as [i Hi].
  destruct (Forall2_lookup_l _ _ _ _ _ Hkvs Hi) as ([k' t] & Hi' & Hkt).
  apply bind_Ok in Hkt as (t' & Ht' & [= <- <-]).
  exists t'. split; [exact Ht'|].
  apply elem_of_list_to_map_1; [by rewrite Hkeys|].
  apply list_elem_of_lookup. eauto.
Qed.

Lemma parse_single_example_Raise fs desc e :
  parse_single_example (ExampleProto fs) desc = Raise e →
  ∃ key spec, (key, spec) ∈ desc ∧ parse_feature fs key spec = Raise e.
Proof.
  unfold parse_single_example. intros Hp.
  apply bind_Raise in Hp as [Hp | (kvs & _ & Hp)]; [|discriminate].
  apply traverse_Raise in Hp as (pre & [key spec] & post & -> & _ & Hp).
  exists key, spec. split; [set_solver|].
  apply bind_Raise in Hp as [Hp | (t & _ & Hp)]; [exact Hp | discriminate].
Qed.

Lemma traverse_is_ok {A B} (f : A → result B) l :
  Forall (λ a, is_ok (f a) = true) l → is_ok (traverse f l) = true.
Proof.
  intros Hall. destruct (traverse f l) as [e|bs] eqn:Ht; [|reflexivity].
  apply traverse_Raise in Ht as (pre & a & post & -> & _ & Ha).
  apply Forall_app in Hall as [_ Hall]. apply Forall_cons in Hall as [Hok _].
  rewrite Ha in Hok. discriminate.
Qed.

Lemma parse_single_example_None fs desc example key :
  parse_single_example (ExampleProto fs) desc = Ok example →
  key ∉ desc.*1 → example !! key = None.
Proof.
  unfold parse_single_example. intros Hp Hkey.
  apply bind_Ok in Hp as (kvs & Hkvs & [= <-]).
  apply traverse_Ok in Hkvs.
  apply not_elem_of_list_to_map_1.
  replace (kvs.*1) with (desc.*1); [exact Hkey|].
  clear -Hkvs. induction Hkvs as [|[k s] [k' t] ? ? Hkt _ IH]; [reflexivity|].
  apply bind_Ok in Hkt as (t' & _ & [= <- <-]). simpl. by f_equal.
Qed.

(** Parsed examples agree on a key wherever the records do. *)
Lemma parsed_lookup_agree r1 r2 e1 e2 key :
  parse_tfrecord r1 = Ok e1 → parse_tfrecord r2 = Ok e2 →
  record_feature r1 key = record_feature r2 key →
  e1 !! key = e2 !! key.
Proof.
  intros Hp1 Hp2 Hkey.
  destruct r1 as [|fs1]; [discriminate|]. destruct r2 as [|fs2]; [discriminate|].
  simpl in Hkey.
  destruct (decide (key ∈ feature_description.*1)) as [Hin|Hout].
  - apply list_elem_of_fmap in Hin as ([k spec] & -> & Hin). simpl in Hkey |- *.
    destruct (parse_single_example_Ok _ _ _ feature_description_NoDup Hp1 _ _ Hin)
      as (t1 & Ht1 & ->).
    destruct (parse_single_example_Ok _ _ _ feature_description_NoDup Hp2 _ _ Hin)
      as (t2 & Ht2 & ->).
    apply parse_feature_value in Ht1, Ht2.
    rewrite <- Ht1, <- Ht2. unfold parsed_value. by rewrite Hkey.
  - rewrite (parse_single_example_None _ _ _ _ Hp1 Hout).
    by rewrite (parse_single_example_None _ _ _ _ Hp2 Hout).
Qed.

(** C6 (amended): [parse_tfrecord] succeeds exactly on the records that
    decode and hold each of the thirteen [FixedLenFeature] keys with the
    declared type and number of values, and [qualities_str], the one
    [VarLenFeature], either not at all or as a bytes list of any length;
    on success every key of the result carries the record's values
    unchanged (an absent [qualities_str] comes out empty). *)
Theorem parse_tfrecord_accepts (r : Serialized) :
  match parse_tfrecord r with
  | Ok example =>
      ∃ fs, r = ExampleProto fs ∧
        Forall (λ '(key, spec), accepted_feature fs key spec) feature_description ∧
        ∀ key spec, (key, spec) ∈ feature_description →
          example !! key = parsed_value fs key spec
  | Raise _ => ¬ accepted r
  end.
Proof.
  destruct r as [|fs].
  { simpl. intros (fs & Hfs & _). discriminate. }
  destruct (parse_tfrecord (ExampleProto fs)) as [e|example] eqn:Hp.
  - intros (fs' & [= <-] & Hall).
    apply parse_single_example_Raise in Hp as (key & spec & Hin & Hp).
    rewrite Forall_forall in Hall. specialize (Hall _ Hin). simpl in Hall.
    apply parse_feature_accepted in Hall. rewrite Hp in Hall. discriminate.
  - exists fs. split; [reflexivity|].
    pose proof (parse_single_example_Ok _ _ _ feature_description_NoDup Hp) as Hkeys.
    split.
    + apply Forall_forall. intros [key spec] Hin.
      destruct (Hkeys _ _ Hin) as (t & Ht & _).
      apply parse_feature_accepted. rewrite Ht. reflexivity.
    + intros key spec Hin. destruct (Hkeys _ _ Hin) as (t & Ht & ->).
      symmetry. by apply parse_feature_value.
Qed.

Ltac in_description :=
  unfold feature_description;
  repeat first [apply list_elem_of_here | apply list_elem_of_further].

Lemma parsed_int64_scalar fs example key :
  parse_tfrecord (ExampleProto fs) = Ok example →
  (key, FixedLenFeature [] tf_int64) ∈ feature_description →
  ∃ z, fs !! key = Some (Int64List [z]) ∧
       example !! key = Some (Dense [] (Int64List [z])).
Proof.
  intros Hp Hin.
  destruct (parse_single_example_Ok _ _ _ feature_description_NoDup Hp _ _ Hin)
    as (t & Ht & He).
  unfold parse_feature in Ht. destruct (fs !! key) as [f|]; [|discriminate].
  case_bool_decide as Hd; [|discriminate].
  destruct (Z.eqb_spec (feature_len f) (num_elements [])) as [Hlen|]; [|discriminate].
  simpl in Ht. injection Ht as <-.
  destruct f as [l|l|l]; try discriminate.
  assert (length l = 1%nat) as Hl by (simpl in Hlen; lia).
  destruct l as [|z [|? ?]]; try discriminate. eauto.
Qed.

Lemma parsed_audio fs example :
  parse_tfrecord (ExampleProto fs) = Ok example →
  ∃ audio, fs !! "audio" = Some (FloatList audio) ∧
           Z.of_nat (length audio) = 64000 ∧
           example !! "audio" = Some (Dense [64000] (FloatList audio)).
Proof.
  intros Hp.
  destruct (parse_single_example_Ok _ _ _ feature_description_NoDup Hp
              "audio" (FixedLenFeature [64000] tf_float32) ltac:(in_description))
    as (t & Ht & He).
  unfold parse_feature in Ht. destruct (fs !! "audio") as [f|]; [|discriminate].
  case_bool_decide as Hd; [|discriminate].
  destruct (Z.eqb_spec (feature_len f) (num_elements [64000])) as [Hlen|]; [|discriminate].
  simpl in Ht. injection Ht as <-.
  destruct f as [l|l|l]; try discriminate. eauto.
Qed.

Lemma extract_features_eval example n audio note pitch velocity sample_rate source label :
  example !! "audio" = Some (Dense [n] (FloatList audio)) →
  example !! "note" = Some (Dense [] (Int64List [note])) →
  example !! "pitch" = Some (Dense [] (Int64List [pitch])) →
  example !! "velocity" = Some (Dense [] (Int64List [velocity])) →
  example !! "sample_rate" = Some (Dense [] (Int64List [sample_rate])) →
  example !! "instrument_source" = Some (Dense [] (Int64List [source])) →
  example !! "instrument_family" = Some label →
  extract_features example =
    Ok ((of_int64 <$> [note; pitch; velocity; sample_rate; source]) ++ mel_of_audio audio,
        label).
Proof.
  intros Ha Hn Hp Hv Hsr Hsrc Hl. unfold extract_features, getitem.
  rewrite Ha, Hn, Hp, Hv, Hsr, Hsrc, Hl. reflexivity.
Qed.

(** On a parsed example [extract_features] raises nothing, and its value
    is the cast metadata followed by the mel summary of the audio. *)
Lemma extract_features_parsed fs example :
  parse_tfrecord (ExampleProto fs) = Ok example →
  ∃ audio note pitch velocity sample_rate instrument_source family,
    fs !! "audio" = Some (FloatList audio) ∧
    Z.of_nat (length audio) = 64000 ∧
    fs !! "note" = Some (Int64List [note]) ∧
    fs !! "pitch" = Some (Int64List [pitch]) ∧
    fs !! "velocity" = Some (Int64List [velocity]) ∧
    fs !! "sample_rate" = Some (Int64List [sample_rate]) ∧
    fs !! "instrument_source" = Some (Int64List [instrument_source]) ∧
    fs !! "instrument_family" = Some (Int64List [family]) ∧
    extract_features example =
      Ok ((of_int64 <$> [note; pitch; velocity; sample_rate; instrument_source])
            ++ mel_of_audio audio,
          Dense [] (Int64List [family])).
Proof.
  intros Hp.
  destruct (parsed_audio _ _ Hp) as (audio & Hfa & Hlen & Hea).
  destruct (parsed_int64_scalar _ _ "note" Hp ltac:(in_description)) as (note & ? & Hn).
  destruct (parsed_int64_scalar _ _ "pitch" Hp ltac:(in_description)) as (pitch & ? & Hpi).
  destruct (parsed_int64_scalar _ _ "velocity" Hp ltac:(in_description)) as (velocity & ? & Hv).
  destruct (parsed_int64_scalar _ _ "sample_rate" Hp ltac:(in_description)) as (sr & ? & Hsr).
  destruct (parsed_int64_scalar _ _ "instrument_source" Hp ltac:(in_description)) as (src & ? & Hsrc).
  destruct (parsed_int64_scalar _ _ "instrument_family" Hp ltac:(in_description)) as (fam & ? & Hfam).
  exists audio, note, pitch, velocity, sr, src, fam.
  repeat (split; [assumption|]).
  unfold extract_features, getitem.
  rewrite Hea, Hn, Hpi, Hv, Hsr, Hsrc, Hfam. reflexivity.
Qed.

(** ** Shapes along the pipeline *)

Lemma length_frame signal frame_length frame_step :
  length (frame signal frame_length frame_step)
  = Z.to_nat (num_frames (Z.of_nat (length signal)) frame_length frame_step).
Proof. unfold frame. by rewrite length_fmap, length_seqZ. Qed.

Lemma length_stft signals frame_length frame_step fft_length :
  length (stft signals frame_length frame_step fft_length)
  = Z.to_nat (num_frames (Z.of_nat (length signals)) frame_length frame_step).
Proof. unfold stft. by rewrite length_fmap, length_frame. Qed.

Lemma length_rfft x fft_length :
  length (rfft x fft_length) = Z.to_nat (fft_length / 2 + 1).
Proof. unfold rfft. by rewrite length_fmap, length_seqZ. Qed.

Lemma stft_row_length signals frame_length frame_step fft_length row :
  row ∈ stft signals frame_length frame_step fft_length →
  length row = Z.to_nat (fft_length / 2 + 1).
Proof.
  unfold stft. intros (framed & -> & _)%list_elem_of_fmap. apply length_rfft.
Qed.

Lemma length_reduce_mean m : length (reduce_mean m) = ncols m.
Proof. unfold reduce_mean. by rewrite length_fmap, length_seq. Qed.

Lemma ncols_tf_math_log m : ncols (tf_math_log m) = ncols m.
Proof. destruct m; simpl; [reflexivity | by rewrite length_fmap]. Qed.

Lemma ncols_add_scalar m c : ncols (add_scalar m c) = ncols m.
Proof. destruct m; simpl; [reflexivity | by rewrite length_fmap]. Qed.

Lemma ncols_tensordot a b : a ≠ [] → ncols (tensordot a b) = ncols b.
Proof.
  destruct a; [contradiction|]. intros _. simpl.
  by rewrite length_fmap, length_seq.
Qed.

Lemma ncols_mel_mat : ncols mel_mat = 128%nat.
Proof.
  unfold mel_mat, linear_to_mel_weight_matrix.
  change (replicate 1 ?x ++ ?l) with (x :: l). unfold ncols.
  rewrite length_replicate. reflexivity.
Qed.

Lemma length_mel_mat : length mel_mat = 513%nat.
Proof.
  unfold mel_mat, linear_to_mel_weight_matrix.
  rewrite length_app, length_replicate, !length_fmap, length_drop.
  unfold linspace. rewrite length_fmap, length_seqZ. reflexivity.
Qed.

Lemma num_frames_audio : num_frames 64000 FFT_SIZE HOP = 247.
Proof. reflexivity. Qed.

Lemma length_mel_of_audio audio :
  Z.of_nat (length audio) = 64000 → length (mel_of_audio audio) = 128%nat.
Proof.
  intros Hlen. unfold mel_of_audio.
  rewrite length_reduce_mean, ncols_tf_math_log, ncols_add_scalar, ncols_tensordot.
  - apply ncols_mel_mat.
  - intros Hnil. apply (f_equal length) in Hnil.
    unfold tf_abs in Hnil. rewrite length_fmap, length_stft, Hlen in Hnil.
    discriminate.
Qed.

(** ** Sums and entries *)

Lemma fold_left_seq_shift {A} (g : A → nat → A) n a m :
  fold_left g (seq (S m) n) a = fold_left (λ acc i, g acc (S i)) (seq m n) a.
Proof.
  revert a m. induction n as [|n IH]; intros a m; simpl; [reflexivity|].
  apply IH.
Qed.

Lemma fsum_fold (l : list F) a :
  fold_left fadd l a
  = fold_left (λ acc i, fadd acc (default fzero (l !! i))) (seq 0 (length l)) a.
Proof.
  revert a. induction l as [|x l IH]; intros a; simpl; [reflexivity|].
  rewrite fold_left_seq_shift. apply IH.
Qed.

Lemma fsum_fsum_upto (l : list F) :
  fsum l = fsum_upto (length l) (λ i, default fzero (l !! i)).
Proof. apply fsum_fold. Qed.

Lemma fsum_upto_ext n (f g : nat → F) :
  (∀ i, (i < n)%nat → f i = g i) → fsum_upto n f = fsum_upto n g.
Proof.
  intros Hfg. unfold fsum_upto. generalize fzero.
  assert (∀ i, i ∈ seq 0 n → f i = g i) as Hin.
  { intros i Hi. apply Hfg. apply elem_of_seq in Hi. lia. }
  clear Hfg. induction (seq 0 n) as [|i l IH]; intros a; simpl; [reflexivity|].
  rewrite (Hin i) by apply list_elem_of_here.
  apply IH. intros j Hj. apply Hin. by apply list_elem_of_further.
Qed.

Lemma column_lookup j (m : list (list F)) t :
  column j m !! t = (λ row, default fzero (row !! j)) <$> m !! t.
Proof.
  unfold column. rewrite list_lookup_fmap.
  destruct (m !! t); simpl; [|reflexivity]. by rewrite nth_lookup.
Qed.

Lemma length_column j (m : list (list F)) : length (column j m) = length m.
Proof. unfold column. by rewrite length_fmap. Qed.

(** The dot product of two vectors of one length, as an indexed sum. *)
Lemma dot_fsum_upto (u v : list F) n :
  length u = n → length v = n →
  dot u v = fsum_upto n (λ k, fmul (default fzero (u !! k)) (default fzero (v !! k))).
Proof.
  intros Hu Hv. unfold dot. rewrite fsum_fsum_upto.
  rewrite length_zip_with, Hu, Hv, Nat.min_id.
  apply fsum_upto_ext. intros k Hk.
  rewrite lookup_zip_with.
  destruct (lookup_lt_is_Some_2 u k ltac:(lia)) as [a ->].
  destruct (lookup_lt_is_Some_2 v k ltac:(lia)) as [b ->].
  reflexivity.
Qed.

Lemma length_mel_spec_rows audio :
  Z.of_nat (length audio) = 64000 →
  length (stft audio FFT_SIZE HOP FFT_SIZE) = 247%nat.
Proof. intros Hlen. rewrite length_stft, Hlen. reflexivity. Qed.

(** One entry of the mel spectrogram, after the logarithm. *)
Lemma log_mel_spec_entry audio t j :
  Z.of_nat (length audio) = 64000 → (t < 247)%nat → (j < 128)%nat →
  let S := stft audio FFT_SIZE HOP FFT_SIZE in
  default fzero
    (column j (tf_math_log (add_scalar (tensordot (tf_abs S) mel_mat) (flit 1e-6))) !! t)
  = flog (fadd (fsum_upto 513 (λ k,
                  fmul (cabs (entry (fzero, fzero) S t k)) (entry fzero mel_mat k j)))
               (flit 1e-6)).
Proof.
  intros Hlen Ht Hj S.
  assert (length S = 247%nat) as HS by (by apply length_mel_spec_rows).
  destruct (lookup_lt_is_Some_2 S t ltac:(lia)) as [row Hrow].
  assert (length row = 513%nat) as Hlrow.
  { apply (stft_row_length audio FFT_SIZE HOP FFT_SIZE).
    apply list_elem_of_lookup. eauto. }
  clearbody S.
  rewrite column_lookup. unfold tf_math_log, add_scalar, tensordot, tf_abs.
  rewrite !list_lookup_fmap, Hrow. cbn [fmap option_fmap option_map default].
  rewrite !list_lookup_fmap, ncols_mel_mat, lookup_seq_lt by exact Hj.
  cbn [fmap option_fmap option_map default from_option Nat.add].
  unfold Datatypes.id. do 2 f_equal.
  rewrite (dot_fsum_upto _ _ 513);
    [|by rewrite length_fmap|by rewrite length_column, length_mel_mat].
  apply fsum_upto_ext. intros k Hk.
  destruct (lookup_lt_is_Some_2 row k ltac:(lia)) as [c Hc].
  destruct (lookup_lt_is_Some_2 mel_mat k ltac:(rewrite length_mel_mat; lia))
    as [weights Hw].
  rewrite list_lookup_fmap, Hc, column_lookup, Hw. unfold entry.
  unfold complex in *. rewrite Hrow, Hw. cbn [mbind option_bind fmap option_fmap option_map default].
  rewrite Hc. reflexivity.
Qed.

Lemma mel_of_audio_formula audio :
  Z.of_nat (length audio) = 64000 → mel_of_audio audio = mel_formula audio.
Proof.
  intros Hlen. unfold mel_of_audio, mel_formula, reduce_mean.
  set (S := stft audio FFT_SIZE HOP FFT_SIZE).
  change (stft audio 1024 256 1024) with S.
  set (m := tf_math_log (add_scalar (tensordot (tf_abs S) mel_mat) (flit 1e-6))).
  assert (length S = 247%nat) as HS by (by apply length_mel_spec_rows).
  assert (length m = 247%nat) as Hm.
  { unfold m, tf_math_log, add_scalar, tensordot, tf_abs. by rewrite !length_fmap. }
  assert (ncols m = 128%nat) as Hcols.
  { unfold m. rewrite ncols_tf_math_log, ncols_add_scalar, ncols_tensordot.
    - apply ncols_mel_mat.
    - intros Hnil. unfold tf_abs in Hnil. apply fmap_nil_inv in Hnil.
      rewrite Hnil in HS. discriminate. }
  rewrite Hcols, Hm. apply list_fmap_ext. intros i j Hij.
  apply lookup_seq in Hij as [-> Hj]. simpl. f_equal.
  rewrite fsum_fsum_upto, length_column, Hm.
  apply fsum_upto_ext. intros t Ht.
  by apply log_mel_spec_entry.
Qed.

(** ** [extract_features] *)

(** C1: on every parsed example [extract_features] returns a vector of
    5 metadata components followed by 128 mel components, 133 in all,
    whatever the input. *)
Theorem extract_features_fixed_length (r : Serialized) (example : gmap string Tensor) :
  parse_tfrecord r = Ok example →
  ∃ metadata mel label,
    extract_features example = Ok (metadata ++ mel, label) ∧
    length metadata = 5%nat ∧ length mel = 128%nat ∧
    length (metadata ++ mel) = 133%nat.
Proof.
  intros Hp. destruct r as [|fs]; [discriminate|].
  destruct (extract_features_parsed _ _ Hp)
    as (audio & note & pitch & velocity & sr & src & fam & _ & Hlen & Hrest).
  do 6 destruct Hrest as [_ Hrest].
  eexists _, _, _. split; [exact Hrest|].
  pose proof (length_mel_of_audio _ Hlen) as Hmel.
  rewrite length_app, Hmel. repeat split.
Qed.

(** C2: the first five components of the feature vector are the float
    casts of the fields note, pitch, velocity, sample_rate and
    instrument_source, as the parsed example and the record hold them. *)
Theorem extract_features_metadata (r : Serialized) (example : gmap string Tensor) :
  parse_tfrecord r = Ok example →
  ∃ features label values,
    extract_features example = Ok (features, label) ∧
    Forall2 (λ key z, record_feature r key = Some (Int64List [z]) ∧
                      example !! key = Some (Dense [] (Int64List [z])))
            metadata_keys values ∧
    take 5 features = of_int64 <$> values.
Proof.
  intros Hp. destruct r as [|fs]; [discriminate|].
  destruct (extract_features_parsed _ _ Hp)
    as (audio & note & pitch & velocity & sr & src & fam
        & _ & _ & Hn & Hpi & Hv & Hsr & Hsrc & _ & Hx).
  exists ((of_int64 <$> [note; pitch; velocity; sr; src]) ++ mel_of_audio audio),
    (Dense [] (Int64List [fam])), [note; pitch; velocity; sr; src].
  split; [exact Hx|]. split; [|reflexivity].
  pose proof (λ key, parsed_int64_scalar fs example key Hp) as Hscalar.
  unfold metadata_keys. simpl.
  repeat (constructor; [split; [assumption|]|]); try constructor.
  - destruct (Hscalar "note" ltac:(in_description)) as (z & Hz & ->). congruence.
  - destruct (Hscalar "pitch" ltac:(in_description)) as (z & Hz & ->). congruence.
  - destruct (Hscalar "velocity" ltac:(in_description)) as (z & Hz & ->). congruence.
  - destruct (Hscalar "sample_rate" ltac:(in_description)) as (z & Hz & ->). congruence.
  - destruct (Hscalar "instrument_source" ltac:(in_description)) as (z & Hz & ->).
    congruence.
Qed.

(** C3: the mel part of the feature vector, the components after the
    five metadata ones, is the time average of the log mel spectrogram:
    short-time Fourier transform of the 64000 samples (frame length 1024,
    hop 256), magnitude, product with the 128-bin mel matrix, logarithm after
    adding 1e-6, mean over the frames. *)
Theorem extract_features_mel (r : Serialized) (example : gmap string Tensor) :
  parse_tfrecord r = Ok example →
  ∃ audio features label,
    record_feature r "audio" = Some (FloatList audio) ∧
    Z.of_nat (length audio) = 64000 ∧
    extract_features example = Ok (features, label) ∧
    drop 5 features = mel_formula audio.
Proof.
  intros Hp. destruct r as [|fs]; [discriminate|].
  destruct (extract_features_parsed _ _ Hp)
    as (audio & note & pitch & velocity & sr & src & fam & Ha & Hlen & Hrest).
  do 6 destruct Hrest as [_ Hrest].
  eexists audio, _, _. split; [exact Ha|]. split; [exact Hlen|].
  split; [exact Hrest|].
  rewrite drop_app_length'; [|reflexivity].
  by apply mel_of_audio_formula.
Qed.

(** C8: the label is the instrument_family field, and parsed examples
    that differ only under instrument_family and instrument_family_str
    get the same feature vector. *)
Theorem label_is_family_only (r1 r2 : Serialized) (e1 e2 : gmap string Tensor) :
  parse_tfrecord r1 = Ok e1 →
  parse_tfrecord r2 = Ok e2 →
  (∀ key, key ≠ "instrument_family" → key ≠ "instrument_family_str" →
          e1 !! key = e2 !! key) →
  ∃ x l1 l2,
    extract_features e1 = Ok (x, l1) ∧ extract_features e2 = Ok (x, l2) ∧
    e1 !! "instrument_family" = Some l1 ∧ e2 !! "instrument_family" = Some l2.
Proof.
  intros Hp1 Hp2 Hagree.
  destruct r1 as [|fs1]; [discriminate|]. destruct r2 as [|fs2]; [discriminate|].
  destruct (parsed_audio _ _ Hp1) as (audio & _ & _ & Ha).
  destruct (parsed_int64_scalar _ _ "note" Hp1 ltac:(in_description)) as (note & _ & Hn).
  destruct (parsed_int64_scalar _ _ "pitch" Hp1 ltac:(in_description)) as (pitch & _ & Hpi).
  destruct (parsed_int64_scalar _ _ "velocity" Hp1 ltac:(in_description))
    as (velocity & _ & Hv).
  destruct (parsed_int64_scalar _ _ "sample_rate" Hp1 ltac:(in_description))
    as (sr & _ & Hsr).
  destruct (parsed_int64_scalar _ _ "instrument_source" Hp1 ltac:(in_description))
    as (src & _ & Hsrc).
  destruct (parsed_int64_scalar _ _ "instrument_family" Hp1 ltac:(in_description))
    as (fam1 & _ & Hl1).
  destruct (parsed_int64_scalar _ _ "instrument_family" Hp2 ltac:(in_description))
    as (fam2 & _ & Hl2).
  exists ((of_int64 <$> [note; pitch; velocity; sr; src]) ++ mel_of_audio audio),
    (Dense [] (Int64List [fam1])), (Dense [] (Int64List [fam2])).
  split; [by eapply extract_features_eval|].
  split; [|split; assumption].
  eapply extract_features_eval; try eassumption;
    rewrite <- Hagree by discriminate; eassumption.
Qed.

(** ** [process_dataset] *)

Lemma count_examples_spec path :
  count_examples dataset_sizes path = expected_count path.
Proof.
  unfold count_examples, expected_count, last_matching_split, dataset_sizes.
  cbn [fold_left]. rewrite !filter_cons, filter_nil.
  destruct (str_in "train" path), (str_in "valid" path), (str_in "test" path);
    repeat case_decide; try discriminate; try contradiction; reflexivity.
Qed.

Lemma for_loop_sequential records X y :
  for_loop (dataset_map (λ example, extract_features example)
              (dataset_map parse_tfrecord (Ok <$> records))) X y
  = xs ← sequential records; Ok (X ++ xs.*1, y ++ xs.*2).
Proof.
  revert X y. induction records as [|r records IH]; intros X y.
  - simpl. by rewrite !app_nil_r.
  - unfold dataset_map, sequential in *. cbn [fmap list_fmap for_loop traverse].
    change (Ok r ≫= parse_tfrecord) with (parse_tfrecord r).
    destruct (parse_tfrecord r) as [e|example]; [reflexivity|].
    change (Ok example ≫= ?f) with (f example). cbv beta.
    destruct (extract_features example) as [e|[features label]]; [reflexivity|].
    change (Ok (features, label) ≫= ?f) with (f (features, label)). cbv beta.
    rewrite IH.
    destruct (traverse _ records) as [e|xs]; [reflexivity|].
    simpl. by rewrite <- !app_assoc.
Qed.

Lemma returned_sequential files path records :
  files path = Some records →
  returned (process_dataset files path)
  = (λ xs, (xs.*1, xs.*2)) <$> sequential records.
Proof.
  intros Hfile. unfold process_dataset, TFRecordDataset. rewrite Hfile.
  cbn [returned]. rewrite for_loop_sequential.
  by destruct (sequential records).
Qed.

Lemma malformed_raises r : malformed r → is_ok (parse_tfrecord r) = false.
Proof.
  intros Hbad. destruct (parse_tfrecord r) as [e|example] eqn:Hp; [reflexivity|].
  exfalso. destruct Hbad as [|fs key shape dtype Hin Hnone|fs key spec f Hin Hf Hty|fs l Hf Hlen].
  - discriminate.
  - destruct (parse_single_example_Ok _ _ _ feature_description_NoDup Hp _ _ Hin)
      as (t & Ht & _).
    unfold parse_feature in Ht. rewrite Hnone in Ht. discriminate.
  - destruct (parse_single_example_Ok _ _ _ feature_description_NoDup Hp _ _ Hin)
      as (t & Ht & _).
    unfold parse_feature in Ht. rewrite Hf in Ht.
    destruct spec; simpl in Hty; case_bool_decide; try contradiction; discriminate.
  - destruct (parsed_audio _ _ Hp) as (audio & Ha & Hlen' & _).
    rewrite Hf in Ha. injection Ha as ->. contradiction.
Qed.

Lemma sequential_Raise records e :
  sequential records = Raise e →
  ∃ r, r ∈ records ∧ parse_tfrecord r = Raise e.
Proof.
  intros Hseq. apply traverse_Raise in Hseq as (pre & r & post & -> & _ & Hr).
  exists r. split; [set_solver|].
  apply bind_Raise in Hr as [Hr | (example & Hp & Hx)]; [exact Hr|].
  destruct r as [|fs]; [discriminate|].
  destruct (extract_features_parsed _ _ Hp) as (? & ? & ? & ? & ? & ? & ? & Hrest).
  do 8 destruct Hrest as [_ Hrest]. rewrite Hrest in Hx. discriminate.
Qed.

Lemma sequential_Ok records xs :
  sequential records = Ok xs →
  Forall2 (λ r x, ∃ example, parse_tfrecord r = Ok example ∧
                             extract_features example = Ok x) records xs.
Proof.
  intros Hseq. apply traverse_Ok in Hseq.
  eapply Forall2_impl; [exact Hseq|]. intros r x Hrx. simpl in Hrx.
  apply bind_Ok in Hrx. exact Hrx.
Qed.

Lemma sequential_is_ok records :
  Forall (λ r, is_ok (parse_tfrecord r) = true) records →
  is_ok (sequential records) = true.
Proof.
  intros Hall. apply traverse_is_ok. eapply Forall_impl; [exact Hall|].
  intros r Hr. simpl in Hr. apply is_ok_true in Hr as [example Hp]. rewrite Hp.
  destruct r as [|fs]; [discriminate|].
  destruct (extract_features_parsed _ _ Hp) as (? & ? & ? & ? & ? & ? & ? & Hrest).
  do 8 destruct Hrest as [_ Hrest]. cbn. rewrite Hrest. reflexivity.
Qed.

(** C4: on a file whose records are [r_0 .. r_(n-1)], what
    [process_dataset] returns is what decoding and featurizing the records
    one after the other gives; when every record parses these are lists [X]
    and [y] of length [n] with [(X[i], y[i]) = extract_features
    (parse_tfrecord r_i)] at every index. *)
Theorem process_dataset_sequential (files : Files) (path : string)
    (records : list Serialized) :
  files path = Some records →
  returned (process_dataset files path)
    = (λ xs, (xs.*1, xs.*2)) <$> sequential records ∧
  (Forall (λ r, is_ok (parse_tfrecord r) = true) records →
   ∃ X y,
     returned (process_dataset files path) = Ok (X, y) ∧
     length X = length records ∧ length y = length records ∧
     ∀ i r, records !! i = Some r →
       ∃ example features label,
         parse_tfrecord r = Ok example ∧
         extract_features example = Ok (features, label) ∧
         X !! i = Some features ∧ y !! i = Some label).
Proof.
  intros Hfile. split; [by apply returned_sequential|].
  intros Hall. rewrite (returned_sequential _ _ _ Hfile).
  apply sequential_is_ok, is_ok_true in Hall as [xs Hxs].
  rewrite Hxs. exists (xs.*1), (xs.*2). split; [reflexivity|].
  apply sequential_Ok in Hxs.
  pose proof (Forall2_length _ _ _ Hxs) as Hlen.
  rewrite !length_fmap. repeat split; auto.
  intros i r Hi.
  destruct (Forall2_lookup_l _ _ _ _ _ Hxs Hi) as ([features label] & Hx & example & Hp & Hf).
  exists example, features, label. repeat split; auto.
  - by rewrite list_lookup_fmap, Hx.
  - by rewrite list_lookup_fmap, Hx.
Qed.

(** C5: when the file holds a malformed record, [process_dataset] ends in
    the exception that [parse_tfrecord] raises on a record of the file;
    nothing is retried and no lists are returned. *)
Theorem process_dataset_propagates (files : Files) (path : string)
    (records : list Serialized) (r : Serialized) :
  files path = Some records →
  r ∈ records →
  malformed r →
  ∃ r' e,
    r' ∈ records ∧ parse_tfrecord r' = Raise e ∧
    returned (process_dataset files path) = Raise e.
Proof.
  intros Hfile Hin Hbad. rewrite (returned_sequential _ _ _ Hfile).
  destruct (sequential records) as [e|xs] eqn:Hseq.
  - destruct (sequential_Raise _ _ Hseq) as (r' & Hin' & Hr').
    exists r', e. auto.
  - exfalso. apply sequential_Ok in Hseq.
    apply list_elem_of_lookup in Hin as [i Hi].
    destruct (Forall2_lookup_l _ _ _ _ _ Hseq Hi) as (x & _ & example & Hp & _).
    apply malformed_raises in Hbad. rewrite Hp in Hbad. discriminate.
Qed.

(** C10: the count that [process_dataset] prints and hands to [tqdm] is the
    size of the last of train, valid, test occurring in the path, 0 when none
    does; the value returned depends on the records of the file alone, so
    calls on the same records return the same, whatever their counts. *)
Theorem process_dataset_count (files files' : Files) (path path' : string) :
  files' path' = files path →
  stdout (process_dataset files path)
    = ["Found " +:+ pretty (expected_count path) +:+ " examples in dataset"] ∧
  tqdm_total (process_dataset files path) = expected_count path ∧
  returned (process_dataset files' path') = returned (process_dataset files path).
Proof.
  intros Hsame. unfold process_dataset. cbn [stdout tqdm_total returned].
  rewrite count_examples_spec. repeat split.
  unfold TFRecordDataset. rewrite Hsame. reflexivity.
Qed.

End Properties.

(** * Further properties *)

Section Further.
Context `{Float32}.

Ltac in_list :=
  repeat first [apply list_elem_of_here | apply list_elem_of_further].

(** ** The parser *)

Lemma traverse_ext {A B} (f g : A → result B) l :
  (∀ a, a ∈ l → f a = g a) → traverse f l = traverse g l.
Proof.
  induction l as [|a l IH]; intros Hfg; simpl; [reflexivity|].
  rewrite (Hfg a) by apply list_elem_of_here.
  rewrite IH; [reflexivity|]. intros b Hb. apply Hfg. by apply list_elem_of_further.
Qed.

Lemma parse_single_example_ext_feature fs1 fs2 desc :
  (∀ key spec, (key, spec) ∈ desc →
     parse_feature fs1 key spec = parse_feature fs2 key spec) →
  parse_single_example (ExampleProto fs1) desc
  = parse_single_example (ExampleProto fs2) desc.
Proof.
  intros Hagree. unfold parse_single_example.
  rewrite (traverse_ext
             (λ '(key, spec), t ← parse_feature fs1 key spec; Ok (key, t))
             (λ '(key, spec), t ← parse_feature fs2 key spec; Ok (key, t)));
    [reflexivity|].
  intros [key spec] Hin. by rewrite (Hagree _ _ Hin).
Qed.

Lemma parse_single_example_ext fs1 fs2 desc :
  (∀ key, key ∈ desc.*1 → fs1 !! key = fs2 !! key) →
  parse_single_example (ExampleProto fs1) desc
  = parse_single_example (ExampleProto fs2) desc.
Proof.
  intros Hagree. apply parse_single_example_ext_feature. intros key spec Hin.
  assert (fs1 !! key = fs2 !! key) as Hkey.
  { apply Hagree. apply list_elem_of_fmap. by exists (key, spec). }
  unfold parse_feature. rewrite Hkey. reflexivity.
Qed.

(** X1: a feature under a name that [feature_description] does not
    declare is ignored: adding it to a record changes neither the parsed
    example nor the exception. *)
Theorem parse_tfrecord_ignores_undeclared (fs : gmap string Feature)
    (key : string) (f : Feature) :
  key ∉ feature_description.*1 →
  parse_tfrecord (ExampleProto (<[key := f]> fs)) = parse_tfrecord (ExampleProto fs).
Proof.
  intros Hkey. apply parse_single_example_ext. intros key' Hin.
  apply lookup_insert_ne. intros ->. contradiction.
Qed.

(** X2: the dictionary that [parse_tfrecord] returns has the fourteen
    declared keys and no other. *)
Theorem parse_tfrecord_keys (r : Serialized) (example : gmap string Tensor) (key : string) :
  parse_tfrecord r = Ok example →
  is_Some (example !! key) ↔ key ∈ feature_description.*1.
Proof.
  intros Hp. destruct r as [|fs]; [discriminate|]. split.
  - intros Hsome. destruct (decide (key ∈ feature_description.*1)) as [|Hout]; [done|].
    rewrite (parse_single_example_None _ _ _ _ Hp Hout) in Hsome.
    by destruct Hsome.
  - intros ([k spec] & -> & Hin)%list_elem_of_fmap.
    destruct (parse_single_example_Ok _ _ _ feature_description_NoDup Hp _ _ Hin)
      as (t & _ & Ht).
    simpl. rewrite Ht. eauto.
Qed.

(** X3: an absent [qualities_str] and an empty one cannot be told apart:
    both records parse to the same result. *)
Theorem parse_tfrecord_empty_qualities_str (fs : gmap string Feature) :
  parse_tfrecord (ExampleProto (delete "qualities_str" fs))
  = parse_tfrecord (ExampleProto (<["qualities_str" := BytesList []]> fs)).
Proof.
  apply parse_single_example_ext_feature. intros key spec Hin.
  destruct (decide (key = "qualities_str")) as [->|Hne].
  - assert (spec = VarLenFeature tf_string) as ->.
    { pose proof feature_description_NoDup as Hnd.
      assert (("qualities_str", VarLenFeature tf_string) ∈ feature_description)
        as Hin' by (unfold feature_description; in_list).
      apply list_elem_of_lookup in Hin as [i Hi], Hin' as [j Hj].
      assert (i = j) as ->.
      { eapply NoDup_lookup; [exact Hnd| |]; rewrite list_lookup_fmap.
        - by rewrite Hi.
        - by rewrite Hj. }
      congruence. }
    unfold parse_feature. rewrite lookup_delete_eq, lookup_insert_eq. reflexivity.
  - unfold parse_feature.
    rewrite lookup_delete_ne, lookup_insert_ne by congruence. reflexivity.
Qed.

(** ** [extract_features] on examples that lack a key *)

(** X4: [extract_features] raises, and returns nothing, when the example
    lacks any of the seven keys it reads; without [audio], the first key
    read, the exception is [KeyError audio]. *)
Theorem extract_features_missing_key (example : gmap string Tensor) (key : string) :
  key ∈ keys_read →
  example !! key = None →
  is_ok (extract_features example) = false ∧
  (key = "audio" → extract_features example = Raise (KeyError "audio")).
Proof.
  intros Hin Hnone. split.
  - unfold keys_read in Hin. rewrite !elem_of_cons, elem_of_nil in Hin.
    unfold extract_features, getitem.
    decompose [or] Hin; try contradiction; subst key; rewrite Hnone;
      repeat match goal with
      | |- is_ok (Raise _) = false => reflexivity
      | |- is_ok (Raise _ ≫= _) = false => reflexivity
      | |- is_ok ((Raise _ ≫= _) ≫= _) = false => reflexivity
      | |- is_ok (?m ≫= _) = false =>
          destruct m; cbn [mbind result_bind]; [reflexivity|]
      end.
  - intros ->. unfold extract_features, getitem. rewrite Hnone. reflexivity.
Qed.

(** ** [process_dataset] on files *)

Lemma traverse_app {A B} (f : A → result B) l1 l2 :
  traverse f (l1 ++ l2)
  = xs ← traverse f l1; ys ← traverse f l2; Ok (xs ++ ys).
Proof.
  induction l1 as [|a l1 IH]; simpl.
  - by destruct (traverse f l2).
  - destruct (f a) as [e|b]; [reflexivity|]. simpl. rewrite IH.
    destruct (traverse f l1) as [e|xs]; [reflexivity|]. simpl.
    by destruct (traverse f l2).
Qed.

Lemma returned_is_ok files path records :
  files path = Some records →
  Forall (λ r, is_ok (parse_tfrecord r) = true) records →
  is_ok (returned (process_dataset files path)) = true.
Proof.
  intros Hfile Hall. rewrite (returned_sequential _ _ _ Hfile).
  apply sequential_is_ok, is_ok_true in Hall as [xs ->]. reflexivity.
Qed.

(** X5: the exception that ends [process_dataset] is the one of the first
    record, in file order, that does not parse; what comes after that
    record plays no part. *)
Theorem process_dataset_first_error (files : Files) (path : string)
    (pre post : list Serialized) (r : Serialized) (e : tf_error) :
  files path = Some (pre ++ r :: post) →
  Forall (λ r', is_ok (parse_tfrecord r') = true) pre →
  parse_tfrecord r = Raise e →
  returned (process_dataset files path) = Raise e.
Proof.
  intros Hfile Hpre Hr. rewrite (returned_sequential _ _ _ Hfile).
  unfold sequential. rewrite traverse_app.
  apply sequential_is_ok, is_ok_true in Hpre as [xs Hxs].
  unfold sequential in Hxs. rewrite Hxs. simpl. rewrite Hr. reflexivity.
Qed.

(** X6: a file that is two files one after the other gives the results of
    the first followed by those of the second, and raises what the first
    raises, else what the second raises. *)
Theorem process_dataset_app (files files1 files2 : Files) (path path1 path2 : string)
    (records1 records2 : list Serialized) :
  files1 path1 = Some records1 →
  files2 path2 = Some records2 →
  files path = Some (records1 ++ records2) →
  returned (process_dataset files path)
  = r1 ← returned (process_dataset files1 path1);
    r2 ← returned (process_dataset files2 path2);
    Ok (r1.1 ++ r2.1, r1.2 ++ r2.2).
Proof.
  intros H1 H2 H12.
  rewrite (returned_sequential _ _ _ H1), (returned_sequential _ _ _ H2),
    (returned_sequential _ _ _ H12).
  unfold sequential. rewrite traverse_app.
  destruct (traverse _ records1) as [e|xs]; [reflexivity|].
  destruct (traverse _ records2) as [e|ys]; [reflexivity|].
  simpl. by rewrite !fmap_app.
Qed.

(** X7: whatever [process_dataset] returns is rectangular: as many labels
    as feature vectors, one per record of the file, every feature vector of
    length 133 and every label a scalar int64 tensor. *)
Theorem process_dataset_rectangular (files : Files) (path : string)
    (X : list (list F)) (y : list Tensor) :
  returned (process_dataset files path) = Ok (X, y) →
  (∃ records, files path = Some records ∧ length X = length records) ∧
  length y = length X ∧
  Forall (λ features, length features = 133%nat) X ∧
  Forall (λ label, ∃ family, label = Dense [] (Int64List [family])) y.
Proof.
  intros Hret. destruct (files path) as [records|] eqn:Hfile.
  2: { unfold process_dataset, TFRecordDataset in Hret. rewrite Hfile in Hret.
       discriminate. }
  rewrite (returned_sequential _ _ _ Hfile) in Hret.
  destruct (sequential records) as [e|xs] eqn:Hseq; [discriminate|].
  injection Hret as <- <-. apply sequential_Ok in Hseq.
  pose proof (Forall2_length _ _ _ Hseq) as Hlen.
  rewrite !length_fmap. split; [eauto|]. split; [reflexivity|].
  assert (Forall (λ x : list F * Tensor, length x.1 = 133%nat ∧
                    ∃ family, x.2 = Dense [] (Int64List [family])) xs) as Hall.
  { clear Hlen Hfile.
    induction Hseq as [|r x records xs (example & Hp & Hx) _ IH]; [constructor|].
    constructor; [|exact IH].
    destruct r as [|fs]; [discriminate|].
    destruct (extract_features_parsed _ _ Hp)
      as (audio & ? & ? & ? & ? & ? & fam & _ & Haudio & Hrest).
    do 6 destruct Hrest as [_ Hrest]. rewrite Hrest in Hx. injection Hx as <-.
    cbn [fst snd]. split; [|eauto].
    cbn [length]. rewrite (length_mel_of_audio _ Haudio). reflexivity. }
  split; apply Forall_fmap; eapply Forall_impl; try exact Hall; by intros ? [? ?].
Qed.

(** X9: a file without records gives two empty lists, not an exception. *)
Theorem process_dataset_empty_file (files : Files) (path : string) :
  files path = Some [] →
  returned (process_dataset files path) = Ok ([], []).
Proof.
  intros Hfile. unfold process_dataset, TFRecordDataset. rewrite Hfile.
  reflexivity.
Qed.

(** X20: what [process_dataset] returns is aligned with the file: the
    [i]-th label is the instrument family of the [i]-th record and the
    [i]-th feature vector starts with that record's five metadata values. *)
Theorem process_dataset_aligned (files : Files) (path : string)
    (records : list Serialized) (X : list (list F)) (y : list Tensor)
    (i : nat) (r : Serialized) :
  files path = Some records →
  returned (process_dataset files path) = Ok (X, y) →
  records !! i = Some r →
  ∃ family values features,
    record_feature r "instrument_family" = Some (Int64List [family]) ∧
    y !! i = Some (Dense [] (Int64List [family])) ∧
    Forall2 (λ key z, record_feature r key = Some (Int64List [z]))
            metadata_keys values ∧
    X !! i = Some features ∧
    take 5 features = of_int64 <$> values.
Proof.
  intros Hfile Hret Hi. rewrite (returned_sequential _ _ _ Hfile) in Hret.
  destruct (sequential records) as [e|xs] eqn:Hseq; [discriminate|].
  injection Hret as <- <-. apply sequential_Ok in Hseq.
  destruct (Forall2_lookup_l _ _ _ _ _ Hseq Hi) as (x & Hx & example & Hp & Hf).
  destruct r as [|fs]; [discriminate|].
  destruct (extract_features_parsed _ _ Hp)
    as (audio & note & pitch & velocity & sr & src & fam
        & _ & _ & Hn & Hpi & Hv & Hsr & Hsrc & Hfam & Hval).
  rewrite Hval in Hf. injection Hf as <-.
  exists fam, [note; pitch; velocity; sr; src],
    ((of_int64 <$> [note; pitch; velocity; sr; src]) ++ mel_of_audio audio).
  rewrite !list_lookup_fmap, Hx. cbn [record_feature].
  split; [exact Hfam|]. split; [reflexivity|].
  split; [|split; reflexivity].
  unfold metadata_keys. repeat (constructor; [assumption|]). constructor.
Qed.

(** ** Framing *)

Lemma num_frames_fits n frame_length frame_step t :
  0 < frame_step → 0 ≤ t < num_frames n frame_length frame_step →
  frame_length ≤ n ∧ t * frame_step + frame_length ≤ n.
Proof.
  unfold num_frames. intros Hstep Ht.
  destruct (Z.ltb_spec n frame_length) as [Hshort|Hlong]; [lia|].
  split; [exact Hlong|].
  pose proof (Z.mul_div_le (n - frame_length) frame_step Hstep).
  assert (t ≤ (n - frame_length) / frame_step) by lia. nia.
Qed.

Lemma frame_lookup signal frame_length frame_step (t : nat) :
  0 < frame_step →
  (t < length (frame signal frame_length frame_step))%nat →
  frame signal frame_length frame_step !! t
  = Some (take (Z.to_nat frame_length) (drop (t * Z.to_nat frame_step) signal)) ∧
  Z.of_nat (t * Z.to_nat frame_step) + frame_length ≤ Z.of_nat (length signal).
Proof.
  intros Hstep Ht. rewrite length_frame in Ht.
  destruct (num_frames_fits (Z.of_nat (length signal)) frame_length frame_step
              (Z.of_nat t) Hstep ltac:(lia)) as [_ Hfit].
  split; [|lia].
  unfold frame. rewrite list_lookup_fmap, lookup_seqZ_lt by lia. simpl.
  do 3 f_equal. lia.
Qed.

(** X10: frame [t] of [tf.signal.frame] is a whole window of consecutive
    samples starting [t] hops into the signal: it has [frame_length]
    samples, the [n]-th being sample [t * frame_step + n] of the signal;
    nothing is padded. *)
Theorem frame_samples (signal : list F) (frame_length frame_step : Z) (t n : nat) :
  0 < frame_length → 0 < frame_step →
  (t < length (frame signal frame_length frame_step))%nat →
  (n < Z.to_nat frame_length)%nat →
  ∃ framed x,
    frame signal frame_length frame_step !! t = Some framed ∧
    length framed = Z.to_nat frame_length ∧
    framed !! n = Some x ∧
    signal !! (t * Z.to_nat frame_step + n)%nat = Some x.
Proof.
  intros Hlen Hstep Ht Hn.
  destruct (frame_lookup signal frame_length frame_step t Hstep Ht) as [Hframe Hfit].
  destruct (lookup_lt_is_Some_2 signal (t * Z.to_nat frame_step + n)%nat ltac:(lia))
    as [x Hx].
  eexists _, x. split; [exact Hframe|]. split; [|split; [|exact Hx]].
  - rewrite length_take, length_drop. lia.
  - rewrite lookup_take_lt by exact Hn. rewrite lookup_drop. exact Hx.
Qed.

(** X11: [tf.signal.frame] without padding keeps exactly the whole frames:
    the last frame ends inside the signal and one more would not; a signal
    shorter than a frame gives no frame at all. *)
Theorem num_frames_whole (n frame_length frame_step : Z) :
  0 < frame_step →
  let frames := num_frames n frame_length frame_step in
  (n < frame_length → frames = 0) ∧
  (frame_length ≤ n →
     1 ≤ frames ∧
     (frames - 1) * frame_step + frame_length ≤ n < frames * frame_step + frame_length).
Proof.
  intros Hstep frames. unfold frames, num_frames.
  destruct (Z.ltb_spec n frame_length) as [Hshort|Hlong]; split; try lia.
  intros _.
  pose proof (Z.mul_div_le (n - frame_length) frame_step Hstep).
  pose proof (Z.mul_succ_div_gt (n - frame_length) frame_step Hstep).
  pose proof (Z.div_pos (n - frame_length) frame_step ltac:(lia) Hstep).
  nia.
Qed.

(** X12: with the notebook's frame length 1024 and hop 256 the frames
    cover all 64000 samples: every sample of the audio occurs in some
    frame of the short-time transform. *)
Theorem frames_cover_audio (audio : list F) (i : nat) (x : F) :
  Z.of_nat (length audio) = 64000 →
  audio !! i = Some x →
  ∃ t n framed,
    frame audio FFT_SIZE HOP !! t = Some framed ∧ framed !! n = Some x.
Proof.
  intros Hlen Hx.
  assert (Z.of_nat i < 64000) as Hi by (apply lookup_lt_Some in Hx; lia).
  set (t := Z.to_nat (Z.min 246 (Z.of_nat i / 256))).
  set (n := (i - t * 256)%nat).
  assert (length (frame audio FFT_SIZE HOP) = 247%nat) as Hframes
    by (rewrite length_frame, Hlen; reflexivity).
  pose proof (Z.mul_div_le (Z.of_nat i) 256 ltac:(lia)).
  pose proof (Z.mul_succ_div_gt (Z.of_nat i) 256 ltac:(lia)).
  assert (t * 256 ≤ i)%nat as Hle by (unfold t; lia).
  assert (n < 1024)%nat as Hn by (unfold n, t; lia).
  destruct (frame_lookup audio FFT_SIZE HOP t ltac:(reflexivity)
              ltac:(rewrite Hframes; unfold t; lia)) as [Hframe _].
  exists t, n, (take (Z.to_nat FFT_SIZE) (drop (t * Z.to_nat HOP) audio)).
  split; [exact Hframe|].
  rewrite lookup_take_lt by exact Hn. rewrite lookup_drop.
  replace (t * Z.to_nat HOP + n)%nat with i; [exact Hx|].
  change (Z.to_nat HOP) with 256%nat. unfold n. lia.
Qed.

(** ** Shapes at the mel projection *)

Lemma length_linspace start stop num : length (linspace start stop num) = Z.to_nat num.
Proof. unfold linspace. by rewrite length_fmap, length_seqZ. Qed.

Lemma mel_mat_rows : Forall (λ weights, length weights = 128%nat) mel_mat.
Proof.
  unfold mel_mat, linear_to_mel_weight_matrix.
  change (replicate 1 ?x ++ ?l) with (x :: l).
  constructor; [by rewrite length_replicate|].
  apply Forall_fmap, Forall_forall. intros bin_mel _. unfold compose.
  rewrite length_fmap, !length_zip_with, !length_drop, length_linspace.
  reflexivity.
Qed.

(** X14: the two operands of [tf.tensordot] in [extract_features] fit: for
    audio of 64000 samples the spectrogram has 247 rows of 513 bins, as many
    as [mel_mat], built for [FFT_SIZE // 2 + 1] bins, has rows, and [mel_mat]
    is a full 513 by 128 matrix; so the product is formed over matching
    dimensions and [mel_spec] is 247 by 128. *)
Theorem mel_projection_shapes (audio : list F) :
  Z.of_nat (length audio) = 64000 →
  let spectogram := tf_abs (stft audio FFT_SIZE HOP FFT_SIZE) in
  let mel_spec := tensordot spectogram mel_mat in
  length spectogram = 247%nat ∧
  Forall (λ row, length row = length mel_mat) spectogram ∧
  length mel_mat = 513%nat ∧
  Forall (λ weights, length weights = 128%nat) mel_mat ∧
  length mel_spec = 247%nat ∧
  Forall (λ row, length row = 128%nat) mel_spec.
Proof.
  intros Hlen spectogram mel_spec.
  assert (length spectogram = 247%nat) as Hrows.
  { unfold spectogram, tf_abs. rewrite length_fmap. by apply length_mel_spec_rows. }
  split; [exact Hrows|]. split; [|split; [apply length_mel_mat|split; [apply mel_mat_rows|]]].
  - unfold spectogram, tf_abs. apply Forall_fmap, Forall_forall. intros row Hrow.
    unfold compose. rewrite length_fmap, length_mel_mat.
    apply (stft_row_length _ _ _ _ _ Hrow).
  - unfold mel_spec, tensordot. rewrite length_fmap. split; [exact Hrows|].
    apply Forall_fmap, Forall_forall. intros row _. unfold compose.
    by rewrite length_fmap, length_seq, ncols_mel_mat.
Qed.

(** ** The count *)

Lemma append_cons a (s t : string) : String a s +:+ t = String a (s +:+ t).
Proof. reflexivity. Qed.

Lemma append_nil (t : string) : "" +:+ t = t.
Proof. reflexivity. Qed.

Lemma prefix_spec (needle haystack : string) :
  String.prefix needle haystack = true ↔ ∃ post, haystack = needle +:+ post.
Proof.
  revert haystack. induction needle as [|a needle IH]; intros haystack.
  - destruct haystack; simpl; split; eauto.
  - destruct haystack as [|b haystack]; simpl.
    + split; [discriminate|]. intros [post Hpost]. rewrite append_cons in Hpost.
      discriminate.
    + destruct (Ascii.ascii_dec a b) as [->|Hne].
      * rewrite IH. split; intros [post Hpost]; exists post;
          rewrite append_cons in *; congruence.
      * split; [discriminate|]. intros [post Hpost]. rewrite append_cons in Hpost.
        congruence.
Qed.

Lemma str_in_spec (needle haystack : string) :
  str_in needle haystack = true ↔ ∃ pre post, haystack = pre +:+ needle +:+ post.
Proof.
  split.
  - induction haystack as [|a haystack IH]; cbn [str_in]; rewrite orb_true_iff.
    + intros [Hp|]; [|discriminate]. apply prefix_spec in Hp as [post ->].
      by exists "", post.
    + intros [Hp|Hin].
      * apply prefix_spec in Hp as [post Hpost]. by exists "", post.
      * destruct (IH Hin) as (pre & post & ->). by exists (String a pre), post.
  - intros (pre & post & ->). induction pre as [|a pre IH].
    + rewrite append_nil.
      assert (String.prefix needle (needle +:+ post) = true) as Hp
        by (apply prefix_spec; eauto).
      destruct (needle +:+ post); cbn [str_in]; rewrite Hp; reflexivity.
    + rewrite append_cons. cbn [str_in]. rewrite IH. apply orb_true_r.
Qed.

(** X19: [process_dataset] announces zero examples, and gives [tqdm] a zero
    total, exactly when the path contains none of the words train, valid
    and test as a substring. *)
Theorem count_zero_iff (path : string) :
  count_examples dataset_sizes path = 0 ↔
  ∀ split, split ∈ ["train"; "valid"; "test"] →
    ¬ ∃ pre post, path = pre +:+ split +:+ post.
Proof.
  assert (∀ split, (¬ ∃ pre post, path = pre +:+ split +:+ post)
                   ↔ str_in split path = false) as Hsub.
  { intros split. rewrite <- str_in_spec. apply not_true_iff_false. }
  unfold count_examples, dataset_sizes. cbn [fold_left]. split.
  - intros Hcount split Hin. apply Hsub.
    rewrite !elem_of_cons, elem_of_nil in Hin.
    destruct (str_in "train" path) eqn:Htrain, (str_in "valid" path) eqn:Hvalid,
      (str_in "test" path) eqn:Htest; try discriminate.
    decompose [or] Hin; try contradiction; subst split; assumption.
  - intros Hnone.
    rewrite (proj1 (Hsub "train")), (proj1 (Hsub "valid")), (proj1 (Hsub "test"));
      [reflexivity|apply Hnone; in_list..].
Qed.

End Further.

(** * Properties in exact arithmetic

    What the pipeline computes when the float32 operations are read as the
    real ones ([exact_arith]): no rounding and no overflow. *)

Section Exact.
#[local] Existing Instance exact_arith.
Local Open Scope R_scope.

Ltac literal :=
  unfold fzero; cbn [flit exact_arith]; unfold Q2R;
  repeat (let n := fresh in set (n := Qnum _); vm_compute in n; subst n);
  repeat (let d := fresh in set (d := Qden _); vm_compute in d; subst d).

Ltac exact_ops :=
  cbn [F fadd fsub fmul fdiv fmax fmin fsqrt fcos fsin flog of_int64 fpi exact_arith].

Lemma fzero_exact : fzero = 0.
Proof. literal. lra. Qed.

Lemma flit_half : flit 0.5 = / 2.
Proof. literal. lra. Qed.

Lemma flit_one : flit 1 = 1.
Proof. literal. lra. Qed.

Lemma flit_two : flit 2 = 2.
Proof. literal. lra. Qed.

(** X15: in exact arithmetic every weight of the Hann window that
    [tf.signal.stft] applies lies between 0 and 1 and the first one is 0,
    so the first sample of each frame does not contribute. *)
Theorem hann_window_range (window_length : Z) :
  (2 ≤ window_length)%Z →
  Forall (λ w : R, 0 <= w <= 1) (hann_window window_length) ∧
  hann_window window_length !! 0%nat = Some 0.
Proof.
  intros Hlen. unfold hann_window.
  destruct (Z.eqb_spec window_length 1) as [|_]; [lia|]. split.
  - apply Forall_fmap, Forall_forall. intros count _. unfold compose. cbv beta zeta.
    rewrite flit_half. exact_ops.
    match goal with |- context [cos ?x] => pose proof (COS_bound x) as [? ?] end.
    lra.
  - rewrite list_lookup_fmap, lookup_seqZ_lt by lia.
    cbn [fmap option_fmap option_map]. cbv beta zeta. f_equal.
    rewrite flit_half. exact_ops.
    rewrite Z.add_0_l. change (IZR (Z.of_nat 0)) with 0.
    rewrite Rmult_0_r. unfold Rdiv. rewrite Rmult_0_l, cos_0. lra.
Qed.

(** ** The mel weights *)

Lemma linspace_lookup start stop num (i : nat) :
  (Z.of_nat i < num)%Z →
  linspace start stop num !! i
  = Some (start + IZR (Z.of_nat i) * ((stop - start) / IZR (num - 1))).
Proof.
  intros Hi. unfold linspace. rewrite list_lookup_fmap, lookup_seqZ_lt by lia.
  cbn [fmap option_fmap option_map]. rewrite Z.add_0_l. reflexivity.
Qed.

Lemma mel_weight_range bin_mel lower center upper :
  lower < center → center < upper →
  0 <= mel_weight bin_mel (lower, (center, upper)) <= 1.
Proof.
  intros Hlc Hcu. unfold mel_weight. exact_ops. rewrite fzero_exact.
  split; [apply Rmax_l|]. apply Rmax_lub; [lra|].
  assert (0 < / (center - lower)) as Hk by (apply Rinv_0_lt_compat; lra).
  assert (0 < / (upper - center)) as Hk' by (apply Rinv_0_lt_compat; lra).
  assert ((center - lower) * / (center - lower) = 1) as Hone by (apply Rinv_r; lra).
  assert ((upper - center) * / (upper - center) = 1) as Hone' by (apply Rinv_r; lra).
  unfold Rdiv. destruct (Rle_dec bin_mel center) as [Hle|Hgt].
  - eapply Rle_trans; [apply Rmin_l|]. nra.
  - eapply Rle_trans; [apply Rmin_r|]. nra.
Qed.

Lemma hertz_to_mel_increasing a b :
  0 <= a → a < b → hertz_to_mel a < hertz_to_mel b.
Proof.
  intros Ha Hab. unfold hertz_to_mel. exact_ops.
  assert (flit 1127 = 1127) as -> by (literal; lra).
  assert (flit 700 = 700) as -> by (literal; lra).
  rewrite flit_one.
  apply Rmult_lt_compat_l; [lra|].
  apply ln_increasing; unfold Rdiv; lra.
Qed.

Lemma band_edges_increasing lower upper num (j : nat) l c u :
  lower < upper → (2 ≤ num)%Z →
  let edges := linspace lower upper num in
  zip edges (zip (drop 1 edges) (drop 2 edges)) !! j = Some (l, (c, u)) →
  l < c ∧ c < u.
Proof.
  intros Hlu Hnum edges Hj.
  apply lookup_zip_with_Some in Hj as (l' & cu & [= <- <-] & Hl & Hcu).
  apply lookup_zip_with_Some in Hcu as (c' & u' & [= <- <-] & Hc & Hu).
  rewrite lookup_drop in Hc, Hu.
  pose proof (lookup_lt_Some _ _ _ Hu) as Hlt.
  unfold edges in *. rewrite length_linspace in Hlt.
  rewrite linspace_lookup in Hl, Hc, Hu by lia.
  injection Hl as <-. injection Hc as <-. injection Hu as <-.
  rewrite !Nat2Z.inj_succ, !succ_IZR.
  assert (0 < (upper - lower) / IZR (num - 1)) as Hstep.
  { apply Rdiv_lt_0_compat; [lra|]. apply IZR_lt. lia. }
  set (step := (upper - lower) / IZR (num - 1)) in *. nra.
Qed.

(** X16: in exact arithmetic every entry of [mel_mat] lies between 0 and
    1: the triangular filters never weigh a spectrogram bin negatively or
    by more than one. *)
Theorem mel_mat_range : Forall (Forall (λ w : R, 0 <= w <= 1)) mel_mat.
Proof.
  unfold mel_mat, linear_to_mel_weight_matrix.
  change (replicate 1 ?x ++ ?l) with (x :: l). constructor.
  - apply Forall_replicate. rewrite fzero_exact. lra.
  - apply Forall_fmap, Forall_forall. intros bin_mel _. unfold compose.
    apply Forall_fmap, Forall_forall. intros [l [c u]] Hin. unfold compose.
    apply list_elem_of_lookup in Hin as [j Hj].
    apply band_edges_increasing in Hj as [Hlc Hcu]; [by apply mel_weight_range| |].
    + apply hertz_to_mel_increasing.
      * literal. lra.
      * exact_ops. rewrite flit_two. unfold SR. literal. lra.
    + unfold N_MELS. lia.
Qed.

(** ** The DC bin *)

Lemma fold_dft_dc n (l : list (Z * R)) (acc : complex) :
  fold_left (dft_term n 0) l acc = (fold_left fadd (l.*2) acc.1, acc.2).
Proof.
  revert acc. induction l as [|[i x] l IH]; intros [re im]; [reflexivity|].
  cbn [fold_left fmap list_fmap]. rewrite IH. unfold dft_term. exact_ops.
  cbn [fst snd]. rewrite flit_two, Z.mul_0_l. unfold Rdiv.
  rewrite Rmult_0_r, Rmult_0_l, cos_0, sin_0. f_equal; [f_equal|]; lra.
Qed.

(** X21: in exact arithmetic bin 0 of [tf.signal.rfft] is the plain sum of
    the samples, cropped or zero-padded to [fft_length], with no imaginary
    part. *)
Theorem rfft_dc (x : list R) (fft_length : Z) :
  (0 ≤ fft_length)%Z →
  rfft x fft_length !! 0%nat
  = Some (fsum (resize (Z.to_nat fft_length) fzero x), 0).
Proof.
  intros Hlen. unfold rfft.
  rewrite list_lookup_fmap, lookup_seqZ_lt
    by (pose proof (Z.div_pos fft_length 2 Hlen ltac:(lia)); lia).
  cbn [fmap option_fmap option_map]. f_equal.
  unfold dft_bin. rewrite fold_dft_dc, snd_zip.
  - cbn [fst snd]. unfold fsum. f_equal. apply fzero_exact.
  - rewrite length_resize, length_seqZ. lia.
Qed.

(** ** Silence *)

Lemma fold_dft_zero n k (l : list (Z * R)) (acc : complex) :
  Forall (λ ix, ix.2 = 0) l → fold_left (dft_term n k) l acc = acc.
Proof.
  revert acc. induction l as [|[i x] l IH]; intros acc Hl; simpl; [reflexivity|].
  apply Forall_cons in Hl as [Hx Hl]. simpl in Hx. subst x.
  rewrite (IH _ Hl). unfold dft_term. exact_ops. destruct acc as [re im]. simpl.
  f_equal; lra.
Qed.

Lemma dft_bin_zero n (x : list R) k :
  Forall (λ v, v = 0) x → dft_bin n x k = (0, 0).
Proof.
  intros Hx. unfold dft_bin. rewrite fold_dft_zero; [by rewrite fzero_exact|].
  generalize (seqZ 0 n). induction Hx as [|v x Hv _ IH]; intros [|i l]; simpl;
    constructor; auto.
Qed.

Lemma zip_with_fmul_zero (u v : list R) :
  Forall (λ x, x = 0) u → Forall (λ x, x = 0) (zip_with fmul u v).
Proof.
  intros Hu. revert v. induction Hu as [|x u Hx _ IH]; intros [|y v]; simpl;
    constructor; auto.
  subst x. exact_ops. lra.
Qed.

Lemma stft_silent (audio : list R) frame_length frame_step fft_length :
  Forall (λ x, x = 0) audio →
  Forall (Forall (λ c, c = (0, 0))) (stft audio frame_length frame_step fft_length).
Proof.
  intros Hsilent. unfold stft, frame.
  apply Forall_fmap, Forall_fmap, Forall_forall. intros t _. unfold compose, rfft.
  apply Forall_fmap, Forall_forall. intros k _. unfold compose.
  apply dft_bin_zero, Forall_resize; [by rewrite fzero_exact|].
  by apply zip_with_fmul_zero, Forall_take, Forall_drop.
Qed.

Lemma fsum_upto_const n (c : R) : fsum_upto n (λ _, c) = INR n * c.
Proof.
  unfold fsum_upto. rewrite <- (length_seq n 0) at 2.
  assert (∀ (l : list nat) a, fold_left (λ acc _, fadd acc c) l a = a + INR (length l) * c)
    as Hfold.
  { induction l as [|i l IH]; intros a.
    - simpl. lra.
    - cbn [fold_left]. rewrite IH. cbn [length]. rewrite S_INR. exact_ops. lra. }
  rewrite Hfold, fzero_exact. lra.
Qed.

Lemma fmap_seq_const {A} (f : nat → A) n c :
  (∀ j, (j < n)%nat → f j = c) → f <$> seq 0 n = replicate n c.
Proof.
  intros Hf. apply list_eq. intros j. rewrite list_lookup_fmap.
  destruct (decide (j < n)%nat) as [Hj|Hj].
  - rewrite lookup_seq_lt by exact Hj. simpl.
    rewrite (Hf j Hj). symmetry. by apply lookup_replicate_2.
  - rewrite lookup_seq_ge by lia. symmetry. apply lookup_replicate_None. lia.
Qed.

(** X18: in exact arithmetic a silent clip, all samples zero, gets the
    constant mel summary [ln 1e-6] in all 128 components. *)
Theorem silent_audio_features (r : Serialized) (example : gmap string Tensor)
    (audio : list R) :
  parse_tfrecord r = Ok example →
  record_feature r "audio" = Some (FloatList audio) →
  Forall (λ x, x = 0) audio →
  ∃ features label,
    extract_features example = Ok (features, label) ∧
    drop 5 features = replicate 128 (ln (flit 1e-6)).
Proof.
  intros Hp Haudio Hsilent. destruct r as [|fs]; [discriminate|].
  destruct (extract_features_parsed _ _ Hp)
    as (audio' & ? & ? & ? & ? & ? & ? & Ha & Hlen & Hrest).
  do 6 destruct Hrest as [_ Hrest].
  simpl in Haudio. rewrite Ha in Haudio. injection Haudio as ->.
  eexists _, _. split; [exact Hrest|].
  rewrite drop_app_length'; [|reflexivity].
  rewrite (mel_of_audio_formula _ Hlen). unfold mel_formula.
  apply fmap_seq_const. intros j _.
  pose proof (stft_silent audio 1024 256 1024 Hsilent) as Hzero.
  assert (∀ t k, cabs (entry (fzero, fzero) (@stft exact_arith audio 1024 256 1024) t k)
                 = 0) as Hcabs.
  { intros t k. unfold entry.
    match goal with |- cabs ?e = 0 => assert (e = (0, 0)) as -> end.
    { match goal with
      | |- default _ (?m ≫= _) = _ => destruct m as [row|] eqn:Hrow
      end; cbn [mbind option_bind]; [|by rewrite fzero_exact].
      destruct (row !! k) as [c|] eqn:Hc; cbn [default from_option];
        [|by rewrite fzero_exact].
      rewrite Forall_forall in Hzero.
      pose proof (Hzero row (list_elem_of_lookup_2 _ _ _ Hrow)) as Hr.
      rewrite Forall_forall in Hr. apply Hr. by eapply list_elem_of_lookup_2. }
    unfold cabs. exact_ops. cbn [fst snd].
    replace (0 * 0 + 0 * 0) with 0 by lra. apply sqrt_0. }
  rewrite (@fsum_upto_ext exact_arith 247 _ (λ _, ln (@flit exact_arith 1e-6))).
  - rewrite fsum_upto_const. exact_ops.
    change (INR 247) with (INR (Z.to_nat 247)). rewrite INR_IZR_INZ.
    change (Z.of_nat (Z.to_nat 247)) with 247%Z. field.
  - intros t _. exact_ops. f_equal.
    rewrite (@fsum_upto_ext exact_arith 513 _ (λ _, 0)).
    + rewrite fsum_upto_const. lra.
    + intros k _. rewrite Hcabs. lra.
Qed.

End Exact.

(** C6 (as stated) fails: the sample record without [qualities_str] does
    not contain all fourteen declared features, and it parses. *)
Lemma parse_accepts_missing_qualities_str :
  ¬ (is_ok (parse_tfrecord record_without_qualities_str) = true
     ↔ holds_all_declared record_without_qualities_str).
Proof.
  intros [Hholds _].
  assert (is_ok (parse_tfrecord record_without_qualities_str) = true) as Hok
    by (vm_compute; reflexivity).
  destruct (Hholds Hok) as (fs & Heq & Hall).
  unfold record_without_qualities_str in Heq.
  injection Heq as <-.
  rewrite Forall_forall in Hall.
  destruct (Hall ("qualities_str", VarLenFeature tf_string)) as (f & Hf & _).
  - unfold feature_description. rewrite !elem_of_cons. tauto.
  - rewrite lookup_delete_eq in Hf. discriminate.
Qed.

(** * Instances on the sample inputs *)

Lemma sample_record_parses : is_ok (parse_tfrecord sample_record) = true.
Proof. vm_compute. reflexivity. Qed.

Lemma keyboard_record_parses : is_ok (parse_tfrecord keyboard_record) = true.
Proof. vm_compute. reflexivity. Qed.

Lemma extract_features_fixed_length_sample :
  ∃ example, parse_tfrecord sample_record = Ok example ∧
  ∃ metadata mel label,
    extract_features example = Ok (metadata ++ mel, label) ∧
    length metadata = 5%nat ∧ length mel = 128%nat ∧
    length (metadata ++ mel) = 133%nat.
Proof.
  destruct (is_ok_Ok _ sample_record_parses) as [example Hp].
  exists example. split; [exact Hp|].
  exact (extract_features_fixed_length sample_record example Hp).
Defined.

Lemma extract_features_metadata_sample :
  ∃ example, parse_tfrecord sample_record = Ok example ∧
  ∃ features label values,
    extract_features example = Ok (features, label) ∧
    Forall2 (λ key z, record_feature sample_record key = Some (Int64List [z]) ∧
                      example !! key = Some (Dense [] (Int64List [z])))
            metadata_keys values ∧
    take 5 features = of_int64 <$> values.
Proof.
  destruct (is_ok_Ok _ sample_record_parses) as [example Hp].
  exists example. split; [exact Hp|].
  exact (extract_features_metadata sample_record example Hp).
Defined.

Lemma label_is_family_only_sample :
  ∃ e1 e2, parse_tfrecord sample_record = Ok e1 ∧ parse_tfrecord keyboard_record = Ok e2 ∧
  ∃ x l1 l2,
    extract_features e1 = Ok (x, l1) ∧ extract_features e2 = Ok (x, l2) ∧
    e1 !! "instrument_family" = Some l1 ∧ e2 !! "instrument_family" = Some l2.
Proof.
  destruct (is_ok_Ok _ sample_record_parses) as [e1 Hp1].
  destruct (is_ok_Ok _ keyboard_record_parses) as [e2 Hp2].
  exists e1, e2. split; [exact Hp1|]. split; [exact Hp2|].
  apply (label_is_family_only sample_record keyboard_record e1 e2 Hp1 Hp2).
  intros key H1 H2. apply (parsed_lookup_agree _ _ _ _ _ Hp1 Hp2).
  unfold keyboard_record, sample_record, record_feature.
  rewrite !lookup_insert_ne by congruence. reflexivity.
Defined.

Lemma process_dataset_sequential_sample :
  ∃ X y,
    returned (process_dataset sample_files "../datasets/nsynth-train.tfrecord") = Ok (X, y) ∧
    length X = 2%nat ∧ length y = 2%nat ∧
    ∀ i r, [sample_record; keyboard_record] !! i = Some r →
      ∃ example features label,
        parse_tfrecord r = Ok example ∧
        extract_features example = Ok (features, label) ∧
        X !! i = Some features ∧ y !! i = Some label.
Proof.
  apply (process_dataset_sequential sample_files "../datasets/nsynth-train.tfrecord"
           [sample_record; keyboard_record] eq_refl).
  constructor; [exact sample_record_parses|].
  constructor; [exact keyboard_record_parses|].
  constructor.
Defined.

Lemma process_dataset_propagates_sample :
  ∃ r' e,
    r' ∈ [sample_record; truncated_record; keyboard_record] ∧
    parse_tfrecord r' = Raise e ∧
    returned (process_dataset broken_files "../datasets/nsynth-train.tfrecord") = Raise e.
Proof.
  apply (process_dataset_propagates broken_files "../datasets/nsynth-train.tfrecord"
           [sample_record; truncated_record; keyboard_record] truncated_record eq_refl).
  - apply list_elem_of_further, list_elem_of_here.
  - apply (@audio_shape exact_arith _ [0%R; 0%R; 0%R]).
    + apply lookup_insert_eq.
    + simpl. lia.
Defined.

Lemma process_dataset_count_sample :
  expected_count "../datasets/nsynth-train.tfrecord" = 289205 ∧
  expected_count "../datasets/nsynth-test.tfrecord" = 4096 ∧
  stdout (process_dataset sample_files "../datasets/nsynth-train.tfrecord")
    = ["Found " +:+ pretty (expected_count "../datasets/nsynth-train.tfrecord")
         +:+ " examples in dataset"] ∧
  tqdm_total (process_dataset sample_files "../datasets/nsynth-train.tfrecord")
    = expected_count "../datasets/nsynth-train.tfrecord" ∧
  returned (process_dataset sample_files "../datasets/nsynth-test.tfrecord")
    = returned (process_dataset sample_files "../datasets/nsynth-train.tfrecord").
Proof.
  split; [vm_compute; reflexivity|]. split; [vm_compute; reflexivity|].
  apply (process_dataset_count sample_files sample_files
           "../datasets/nsynth-train.tfrecord" "../datasets/nsynth-test.tfrecord").
  reflexivity.
Defined.

Lemma extract_features_mel_sample :
  ∃ example, parse_tfrecord sample_record = Ok example ∧
  ∃ audio features label,
    record_feature sample_record "audio" = Some (FloatList audio) ∧
    Z.of_nat (length audio) = 64000 ∧
    extract_features example = Ok (features, label) ∧
    drop 5 features = mel_formula audio.
Proof.
  destruct (is_ok_Ok _ sample_record_parses) as [example Hp].
  exists example. split; [exact Hp|].
  exact (extract_features_mel sample_record example Hp).
Defined.

(** * Instances of the further properties *)

Lemma parse_tfrecord_ignores_undeclared_sample :
  parse_tfrecord (ExampleProto (<["comment" := BytesList ["take 2"]]> sample_features))
  = parse_tfrecord (ExampleProto sample_features).
Proof.
  apply (@parse_tfrecord_ignores_undeclared exact_arith).
  cbn. rewrite !not_elem_of_cons. repeat split; try discriminate.
  apply not_elem_of_nil.
Defined.

Lemma parse_tfrecord_keys_sample :
  ∃ example, parse_tfrecord sample_record = Ok example ∧
    (is_Some (example !! "audio") ↔ "audio" ∈ feature_description.*1).
Proof.
  destruct (is_ok_Ok _ sample_record_parses) as [example Hp].
  exists example. split; [exact Hp|].
  exact (parse_tfrecord_keys sample_record example "audio" Hp).
Defined.

Lemma extract_features_missing_key_sample :
  is_ok (extract_features (delete "pitch" sample_example)) = false ∧
  ("pitch" = "audio" →
   extract_features (delete "pitch" sample_example) = Raise (KeyError "audio")).
Proof.
  apply extract_features_missing_key.
  - unfold keys_read. apply list_elem_of_further, list_elem_of_further, list_elem_of_here.
  - apply lookup_delete_eq.
Defined.

Lemma truncated_record_raises :
  parse_tfrecord truncated_record = Raise (ShapeMismatch "audio").
Proof. vm_compute. reflexivity. Qed.

Lemma process_dataset_first_error_sample :
  returned (process_dataset broken_files "../datasets/nsynth-valid.tfrecord")
  = Raise (ShapeMismatch "audio").
Proof.
  apply (process_dataset_first_error broken_files "../datasets/nsynth-valid.tfrecord"
           [sample_record] [keyboard_record] truncated_record).
  - reflexivity.
  - constructor; [exact sample_record_parses | constructor].
  - exact truncated_record_raises.
Defined.

Lemma process_dataset_app_sample :
  returned (process_dataset sample_files "both.tfrecord")
  = r1 ← returned (@process_dataset exact_arith (λ _, Some [sample_record]) "first.tfrecord");
    r2 ← returned (@process_dataset exact_arith (λ _, Some [keyboard_record]) "second.tfrecord");
    Ok (r1.1 ++ r2.1, r1.2 ++ r2.2).
Proof.
  apply (process_dataset_app sample_files _ _ "both.tfrecord" "first.tfrecord"
           "second.tfrecord" [sample_record] [keyboard_record]); reflexivity.
Defined.

Lemma sample_files_return :
  is_ok (returned (process_dataset sample_files "../datasets/nsynth-test.tfrecord")) = true.
Proof.
  apply (returned_is_ok sample_files _ [sample_record; keyboard_record] eq_refl).
  constructor; [exact sample_record_parses|].
  constructor; [exact keyboard_record_parses | constructor].
Qed.

Lemma process_dataset_rectangular_sample :
  ∃ X y,
    returned (process_dataset sample_files "../datasets/nsynth-test.tfrecord") = Ok (X, y) ∧
    (∃ records, sample_files "../datasets/nsynth-test.tfrecord" = Some records ∧
                length X = length records) ∧
    length y = length X ∧
    Forall (λ features, length features = 133%nat) X ∧
    Forall (λ label, ∃ family, label = Dense [] (Int64List [family])) y.
Proof.
  destruct (is_ok_Ok _ sample_files_return) as [[X y] Hret].
  exists X, y. split; [exact Hret|].
  exact (process_dataset_rectangular sample_files _ X y Hret).
Defined.

Lemma process_dataset_empty_file_sample :
  returned (@process_dataset exact_arith (λ _, Some []) "empty.tfrecord") = Ok ([], []).
Proof. apply process_dataset_empty_file. reflexivity. Defined.

Section FurtherSamples.
#[local] Existing Instance exact_arith.

Lemma frame_samples_sample :
  ∃ framed x,
    @frame exact_arith [1%R; 2%R; 3%R; 4%R; 5%R] 3 2 !! 1%nat = Some framed ∧
    length framed = Z.to_nat 3 ∧
    framed !! 2%nat = Some x ∧
    [1%R; 2%R; 3%R; 4%R; 5%R] !! (1 * Z.to_nat 2 + 2)%nat = Some x.
Proof.
  apply (@frame_samples exact_arith [1%R; 2%R; 3%R; 4%R; 5%R] 3 2 1 2).
  - lia.
  - lia.
  - rewrite length_frame. vm_compute. lia.
  - vm_compute. lia.
Defined.

Lemma num_frames_whole_sample :
  (64000 < 1024 → num_frames 64000 1024 256 = 0) ∧
  (1024 ≤ 64000 →
     1 ≤ num_frames 64000 1024 256 ∧
     (num_frames 64000 1024 256 - 1) * 256 + 1024 ≤ 64000
       < num_frames 64000 1024 256 * 256 + 1024).
Proof. apply (num_frames_whole 64000 1024 256). lia. Defined.

Lemma frames_cover_audio_sample :
  ∃ t n framed,
    @frame exact_arith (replicate (Z.to_nat 64000) 0%R) FFT_SIZE HOP !! t = Some framed ∧
    framed !! n = Some 0%R.
Proof.
  apply (@frames_cover_audio exact_arith (replicate (Z.to_nat 64000) 0%R)
           (Z.to_nat 63999) 0%R).
  - rewrite length_replicate. lia.
  - apply lookup_replicate_2. lia.
Defined.

Lemma mel_projection_shapes_sample :
  let spectogram := tf_abs (stft (replicate (Z.to_nat 64000) 0%R) FFT_SIZE HOP FFT_SIZE) in
  let mel_spec := tensordot spectogram mel_mat in
  length spectogram = 247%nat ∧
  Forall (λ row, length row = length mel_mat) spectogram ∧
  length mel_mat = 513%nat ∧
  Forall (λ weights, length weights = 128%nat) mel_mat ∧
  length mel_spec = 247%nat ∧
  Forall (λ row, length row = 128%nat) mel_spec.
Proof.
  apply (@mel_projection_shapes exact_arith (replicate (Z.to_nat 64000) 0%R)).
  rewrite length_replicate. lia.
Defined.

Lemma hann_window_range_sample :
  Forall (λ w : R, (0 <= w <= 1)%R) (hann_window FFT_SIZE) ∧
  hann_window FFT_SIZE !! 0%nat = Some 0%R.
Proof. apply (hann_window_range FFT_SIZE). unfold FFT_SIZE. lia. Defined.

Lemma sample_record_audio :
  record_feature sample_record "audio"
  = Some (FloatList (replicate (Z.to_nat 64000) 0%R)).
Proof.
  unfold record_feature, sample_record, sample_features.
  cbn [list_to_map foldr fst snd].
  rewrite !lookup_insert_ne by discriminate. apply lookup_insert_eq.
Qed.

Lemma silent_audio_features_sample :
  ∃ example, parse_tfrecord sample_record = Ok example ∧
  ∃ features label,
    extract_features example = Ok (features, label) ∧
    drop 5 features = replicate 128 (ln (flit 1e-6)).
Proof.
  destruct (is_ok_Ok _ sample_record_parses) as [example Hp].
  exists example. split; [exact Hp|].
  apply (silent_audio_features sample_record example
           (replicate (Z.to_nat 64000) 0%R) Hp sample_record_audio).
  apply Forall_replicate. reflexivity.
Defined.

Lemma process_dataset_aligned_sample :
  ∃ X y,
    returned (process_dataset sample_files "../datasets/nsynth-test.tfrecord") = Ok (X, y) ∧
    ∃ family values features,
      record_feature keyboard_record "instrument_family" = Some (Int64List [family]) ∧
      y !! 1%nat = Some (Dense [] (Int64List [family])) ∧
      Forall2 (λ key z, record_feature keyboard_record key = Some (Int64List [z]))
              metadata_keys values ∧
      X !! 1%nat = Some features ∧
      take 5 features = of_int64 <$> values.
Proof.
  destruct (is_ok_Ok _ sample_files_return) as [[X y] Hret].
  exists X, y. split; [exact Hret|].
  exact (process_dataset_aligned sample_files "../datasets/nsynth-test.tfrecord"
           [sample_record; keyboard_record] X y 1 keyboard_record
           eq_refl Hret eq_refl).
Defined.

Lemma rfft_dc_sample :
  rfft [1%R; 2%R; 3%R] 4 !! 0%nat
  = Some (fsum (resize (Z.to_nat 4) fzero [1%R; 2%R; 3%R]), 0%R).
Proof. apply (rfft_dc [1%R; 2%R; 3%R] 4). lia. Defined.

End FurtherSamples.
